(** * Fixup residual networks and recurrent language models

    A shallow embedding of [lib/models/fixup_resnet.py] and
    [lib/models/language_model.py].

    Floating-point numbers are idealised as real numbers.  A parameter
    tensor is described by the initialiser that last wrote it (PyTorch's
    [nn.init] calls), the kernels of the tensor runtime (convolution,
    pooling, the LSTM cell) are an interface. *)

From Stdlib Require Import List String Ascii ZArith Lia Bool Arith.
From Stdlib Require Import Reals Lra.
From Stdlib Require Decimal DecimalString.
Import ListNotations.

Set Implicit Arguments.

(** ** Parameters and the modules of [torch.nn] used by the models *)

Module Fixup.

Local Open Scope string_scope.

(** What the last initialiser call wrote into a parameter tensor.
    [DefaultInit] is the draw made by the layer's own constructor. *)
Inductive Init : Type :=
| DefaultInit
| NormalInit (mean std : R)     (* nn.init.normal_(w, mean, std) *)
| ConstantInit (c : R).         (* nn.init.constant_(w, c) *)

(** [nn.Conv2d(in, out, kernel_size, stride, padding, bias=False)];
    the weight has shape (out, in, k, k). *)
Record Conv2d : Type := mkConv2d {
  in_channels : nat;
  out_channels : nat;
  kernel_size : nat;
  conv_stride : nat;
  conv_padding : nat;
  conv_weight : Init
}.

Definition conv_weight_shape (c : Conv2d) : list nat :=
  [out_channels c; in_channels c; kernel_size c; kernel_size c].

(** [nn.Linear(in_features, out_features, bias)]; [bias = None] when the
    layer was built with [bias=False]. *)
Record Linear : Type := mkLinear {
  in_features : nat;
  out_features : nat;
  weight : Init;
  bias : option Init
}.

Definition nn_Linear (i o : nat) (with_bias : bool) : Linear :=
  mkLinear i o DefaultInit (if with_bias then Some DefaultInit else None).

Definition conv3x3 (in_planes out_planes stride : nat) : Conv2d :=
  mkConv2d in_planes out_planes 3 stride 1 DefaultInit.

Definition conv1x1 (in_planes out_planes stride : nat) : Conv2d :=
  mkConv2d in_planes out_planes 1 stride 0 DefaultInit.

Definition set_conv_weight (w : Init) (c : Conv2d) : Conv2d :=
  mkConv2d (in_channels c) (out_channels c) (kernel_size c)
           (conv_stride c) (conv_padding c) w.

Definition set_weight (w : Init) (l : Linear) : Linear :=
  mkLinear (in_features l) (out_features l) w (bias l).

Definition set_bias (b : Init) (l : Linear) : Linear :=
  mkLinear (in_features l) (out_features l) (weight l) (Some b).

(** ** FixupBasicBlock *)

Definition expansion : nat := 1.

Record FixupBasicBlock : Type := mkBlock {
  bias1a : Linear;
  conv1 : Conv2d;
  bias1b : Linear;
  bias2a : Linear;
  conv2 : Conv2d;
  scale : Linear;
  bias2b : Linear;
  downsample : option Conv2d;
  stride : nat
}.

(** [FixupBasicBlock.__init__] *)
Definition FixupBasicBlock_init (inplanes planes stride : nat)
    (downsample : option Conv2d) : FixupBasicBlock :=
  {| bias1a := nn_Linear 1 1 false;
     conv1 := conv3x3 inplanes planes stride;
     bias1b := nn_Linear 1 1 false;
     bias2a := nn_Linear 1 1 false;
     conv2 := conv3x3 planes planes 1;
     scale := nn_Linear 1 1 false;
     bias2b := nn_Linear 1 1 false;
     downsample := downsample;
     stride := stride |}.

(** ** FixupResNet: construction *)

Record FixupResNet : Type := mkNet {
  num_layers : Z;
  net_conv1 : Conv2d;
  bias1 : Linear;
  layer1 : list FixupBasicBlock;
  layer2 : list FixupBasicBlock;
  layer3 : list FixupBasicBlock;
  layer4 : list FixupBasicBlock;
  bias2 : Linear;
  fc : Linear
}.

(** [_make_layer]: reads and updates [self.inplanes]; returns the stage and
    the new [inplanes].  [range(1, blocks)] has [blocks - 1] elements, none
    when [blocks <= 1]. *)
Definition _make_layer (inplanes planes : nat) (blocks : Z) (stride : nat)
    : list FixupBasicBlock * nat :=
  let downsample :=
    if negb (stride =? 1)%nat || negb (inplanes =? planes * expansion)%nat
    then Some (conv1x1 inplanes (planes * expansion) stride)
    else None in
  let first := FixupBasicBlock_init inplanes planes stride downsample in
  let inplanes := planes * expansion in
  (first :: repeat (FixupBasicBlock_init inplanes planes 1 None)
                   (Z.to_nat (blocks - 1)),
   inplanes).

(** The network as the constructor has it before the initialisation loop.
    [layers[i]] raises [IndexError] on a list shorter than four. *)
Definition assemble (layers : list Z) (num_classes : nat)
    : option FixupResNet :=
  match layers with
  | l0 :: l1 :: l2 :: l3 :: _ =>
      let inplanes := 64%nat in
      let '(s1, inplanes) := _make_layer inplanes 64 l0 1 in
      let '(s2, inplanes) := _make_layer inplanes 128 l1 2 in
      let '(s3, inplanes) := _make_layer inplanes 256 l2 2 in
      let '(s4, inplanes) := _make_layer inplanes 512 l3 2 in
      Some {| num_layers := fold_right Z.add 0%Z layers;
              net_conv1 := mkConv2d 3 64 3 1 1 DefaultInit;
              bias1 := nn_Linear 1 1 false;
              layer1 := s1; layer2 := s2; layer3 := s3; layer4 := s4;
              bias2 := nn_Linear 1 1 false;
              fc := nn_Linear (512 * expansion) num_classes true |}
  | _ => None
  end.

(** *** The initialisation loop over [named_modules()] *)

(** Python's [needle in name] on strings. *)
Fixpoint contains (needle s : string) : bool :=
  String.prefix needle s ||
  match s with
  | EmptyString => false
  | String _ s' => contains needle s'
  end.

(** [str(i)] for a non-negative index. *)
Definition str (i : nat) : string :=
  DecimalString.NilZero.string_of_uint (Nat.to_uint i).

(** [shape[0] * np.prod(shape[2:])] of a convolution weight. *)
Definition fan_term (c : Conv2d) : R :=
  match conv_weight_shape c with
  | o :: _ :: rest => INR o * INR (fold_right Nat.mul 1%nat rest)
  | _ => 0
  end.

(** [self.num_layers ** (-0.5)] for a positive integer base. *)
Definition depth_factor (L : Z) : R := Rpower (IZR L) (- (1 / 2)).

(** Body of the loop when [isinstance(m, FixupBasicBlock)]. *)
Definition init_block (L : Z) (m : FixupBasicBlock) : FixupBasicBlock :=
  let bound := (sqrt (2 / fan_term (conv1 m)) * depth_factor L)%R in
  let c1 := set_conv_weight (NormalInit 0 bound) (conv1 m) in
  let c2 := set_conv_weight (ConstantInit 0) (conv2 m) in
  let ds :=
    match downsample m with
    | Some d =>
        let bound := sqrt (2 / fan_term d) in
        Some (set_conv_weight (NormalInit 0 bound) d)
    | None => None
    end in
  {| bias1a := bias1a m; conv1 := c1; bias1b := bias1b m;
     bias2a := bias2a m; conv2 := c2; scale := scale m;
     bias2b := bias2b m; downsample := ds; stride := stride m |}.

(** Body of the loop when [isinstance(m, nn.Linear)]. *)
Definition init_linear (name : string) (m : Linear) : Linear :=
  let m := set_weight (ConstantInit 0) m in
  let m := match bias m with
           | Some _ => set_bias (ConstantInit 0) m
           | None => m
           end in
  if contains "scale" name then set_weight (ConstantInit 1) m else m.

(** [named_modules()] walks the module tree in pre-order, children in
    registration order, with dotted names.  A block is visited (first
    branch), then its children: the five [nn.Linear] children take the
    second branch, the convolutions and the activation take neither. *)
Definition visit_block (L : Z) (prefix : string) (m : FixupBasicBlock)
    : FixupBasicBlock :=
  let m := init_block L m in
  {| bias1a := init_linear (prefix ++ ".bias1a") (bias1a m);
     conv1 := conv1 m;
     bias1b := init_linear (prefix ++ ".bias1b") (bias1b m);
     bias2a := init_linear (prefix ++ ".bias2a") (bias2a m);
     conv2 := conv2 m;
     scale := init_linear (prefix ++ ".scale") (scale m);
     bias2b := init_linear (prefix ++ ".bias2b") (bias2b m);
     downsample := downsample m;
     stride := stride m |}.

(** The children of an [nn.Sequential] are named by their index. *)
Fixpoint visit_sequential_from (L : Z) (prefix : string) (i : nat)
    (l : list FixupBasicBlock) : list FixupBasicBlock :=
  match l with
  | [] => []
  | m :: l' =>
      visit_block L (prefix ++ "." ++ str i) m
        :: visit_sequential_from L prefix (S i) l'
  end.

Definition visit_sequential (L : Z) (prefix : string)
    (l : list FixupBasicBlock) : list FixupBasicBlock :=
  visit_sequential_from L prefix 0 l.

Definition init_loop (net : FixupResNet) : FixupResNet :=
  let L := num_layers net in
  {| num_layers := L;
     net_conv1 := net_conv1 net;
     bias1 := init_linear "bias1" (bias1 net);
     layer1 := visit_sequential L "layer1" (layer1 net);
     layer2 := visit_sequential L "layer2" (layer2 net);
     layer3 := visit_sequential L "layer3" (layer3 net);
     layer4 := visit_sequential L "layer4" (layer4 net);
     bias2 := init_linear "bias2" (bias2 net);
     fc := init_linear "fc" (fc net) |}.

(** [FixupResNet.__init__(block=FixupBasicBlock, layers, num_classes)].
    The loop visits at least one block, and [L ** (-0.5)] raises
    [ZeroDivisionError] for [L = 0].  For [L < 0] the power is a complex
    number, of which no real standard deviation is modelled: a network is
    given for [0 < L] only. *)
Definition FixupResNet_init (layers : list Z) (num_classes : nat)
    : option FixupResNet :=
  match assemble layers num_classes with
  | Some net => if (0 <? num_layers net)%Z then Some (init_loop net) else None
  | None => None
  end.

Definition FixupResNet18 (num_classes : nat) : option FixupResNet :=
  FixupResNet_init [2; 2; 2; 2]%Z num_classes.

Definition FixupResNet34 (num_classes : nat) : option FixupResNet :=
  FixupResNet_init [3; 4; 6; 3]%Z num_classes.

(** [sum(layers)] *)
Definition total (layers : list Z) : Z := fold_right Z.add 0%Z layers.

(** [sqrt(2 / (out * k * k))] from a convolution's own output channels and
    kernel size. *)
Definition kaiming_std (c : Conv2d) : R :=
  sqrt (2 / (INR (out_channels c) * (INR (kernel_size c)
                                     * INR (kernel_size c)))).

(** Every block of the network, stage by stage. *)
Definition blocks (net : FixupResNet) : list FixupBasicBlock :=
  layer1 net ++ layer2 net ++ layer3 net ++ layer4 net.

Local Close Scope string_scope.

(** ** Forward passes, over the interface of the tensor runtime *)

(** The operations the forward passes call.  [T] is whatever the runtime
    computes with; an operation that raises is a failed [T]. *)
Class TensorRuntime (T : Type) : Type := {
  param : Linear -> T;              (* m.weight, a tensor of shape (out, in) *)
  add : T -> T -> T;                (* a + b, broadcasting *)
  mul : T -> T -> T;                (* a * b, broadcasting *)
  iadd : T -> T -> T;               (* a += b *)
  conv2d : Conv2d -> T -> T;
  leaky_relu : R -> T -> T;         (* F.leaky_relu(x, negative_slope) *)
  adaptive_avg_pool : T -> T;       (* nn.AdaptiveAvgPool2d((1, 1)) *)
  view_rows : T -> T;               (* x.view(x.size(0), -1) *)
  linear : Linear -> T -> T         (* F.linear(x, m.weight, m.bias) *)
}.

(** Default [negative_slope] of [nn.LeakyReLU]. *)
Definition negative_slope : R := 1 / 100.

Section Forward.
Context {T : Type} `{TensorRuntime T}.

(** [self.relu = nn.LeakyReLU(inplace=True)] *)
Definition relu (x : T) : T := leaky_relu negative_slope x.

(** [FixupBasicBlock.forward] *)
Definition FixupBasicBlock_forward (self : FixupBasicBlock) (x : T) : T :=
  let identity := x in
  let out := conv2d (conv1 self) (add x (param (bias1a self))) in
  let out := relu (add out (param (bias1b self))) in
  let out := conv2d (conv2 self) (add out (param (bias2a self))) in
  let out := add (mul out (param (scale self))) (param (bias2b self)) in
  let identity :=
    match downsample self with
    | Some d => conv2d d (add x (param (bias1a self)))
    | None => identity
    end in
  let out := iadd out identity in
  let out := relu out in
  out.

(** [nn.Sequential.forward] *)
Definition Sequential_forward (l : list FixupBasicBlock) (x : T) : T :=
  fold_left (fun x m => FixupBasicBlock_forward m x) l x.

(** Everything [FixupResNet.forward] computes before the classifier. *)
Definition features (self : FixupResNet) (x : T) : T :=
  let x := conv2d (net_conv1 self) x in
  let x := relu (add x (param (bias1 self))) in
  let x := Sequential_forward (layer1 self) x in
  let x := Sequential_forward (layer2 self) x in
  let x := Sequential_forward (layer3 self) x in
  let x := Sequential_forward (layer4 self) x in
  let x := adaptive_avg_pool x in
  view_rows x.

(** [FixupResNet.forward] *)
Definition FixupResNet_forward (self : FixupResNet) (x : T) : T :=
  let x := features self x in
  linear (fc self) (add x (param (bias2 self))).

End Forward.

(** *** The block's forward pass with its tensors in a store

    [nn.LeakyReLU(inplace=True)] and [out += identity] overwrite their
    first argument.  Tensors live in a store and are named by references;
    an operation either allocates its result or overwrites a tensor. *)

Definition Store (T : Type) : Type := list T.
Definition Ref : Type := nat.
Definition St (T A : Type) : Type := Store T -> option (A * Store T).

Definition ret {T A : Type} (a : A) : St T A := fun s => Some (a, s).

Definition bind {T A B : Type} (m : St T A) (k : A -> St T B) : St T B :=
  fun s => match m s with
           | Some (a, s') => k a s'
           | None => None
           end.

Notation "x <- m ;; k" := (bind m (fun x => k))
  (at level 61, m at next level, right associativity).

Definition load {T : Type} (r : Ref) : St T T :=
  fun s => match nth_error s r with
           | Some v => Some (v, s)
           | None => None
           end.

Definition alloc {T : Type} (v : T) : St T Ref :=
  fun s => Some (List.length s, s ++ [v]).

Fixpoint overwrite {T : Type} (r : Ref) (v : T) (s : Store T) : Store T :=
  match s, r with
  | [], _ => []
  | _ :: s', O => v :: s'
  | w :: s', S r' => w :: overwrite r' v s'
  end.

Definition store {T : Type} (r : Ref) (v : T) : St T unit :=
  fun s => if r <? List.length s then Some (tt, overwrite r v s) else None.

Section StoreForward.
Context {T : Type} `{TensorRuntime T}.

(** [a + p.weight]: a new tensor *)
Definition add_param (a : Ref) (p : Linear) : St T Ref :=
  v <- load a ;; alloc (add v (param p)).

(** [a * p.weight]: a new tensor *)
Definition mul_param (a : Ref) (p : Linear) : St T Ref :=
  v <- load a ;; alloc (mul v (param p)).

(** [conv(a)]: a new tensor *)
Definition apply_conv (c : Conv2d) (a : Ref) : St T Ref :=
  v <- load a ;; alloc (conv2d c v).

(** [self.relu(a)] with [inplace=True]: overwrites and returns [a] *)
Definition relu_ (a : Ref) : St T Ref :=
  v <- load a ;; _ <- store a (leaky_relu negative_slope v) ;; ret a.

(** [a += b]: overwrites [a] *)
Definition iadd_ (a b : Ref) : St T Ref :=
  v <- load a ;; w <- load b ;; _ <- store a (iadd v w) ;; ret a.

(** [FixupBasicBlock.forward], statement by statement. *)
Definition FixupBasicBlock_forward_st (self : FixupBasicBlock) (x : Ref)
    : St T Ref :=
  let identity := x in
  t <- add_param x (bias1a self) ;;
  out <- apply_conv (conv1 self) t ;;
  t <- add_param out (bias1b self) ;;
  out <- relu_ t ;;
  t <- add_param out (bias2a self) ;;
  out <- apply_conv (conv2 self) t ;;
  t <- mul_param out (scale self) ;;
  out <- add_param t (bias2b self) ;;
  identity <-
    match downsample self with
    | Some d => t <- add_param x (bias1a self) ;; apply_conv d t
    | None => ret identity
    end ;;
  out <- iadd_ out identity ;;
  out <- relu_ out ;;
  ret out.

End StoreForward.

(** ** The runtime on shapes *)

Definition Shape : Type := list nat.

Definition numel (s : Shape) : nat := fold_right Nat.mul 1%nat s.

(** Broadcasting of two shapes, their last dimensions first. *)
Fixpoint broadcast_rev (a b : list nat) : option (list nat) :=
  match a, b with
  | [], _ => Some b
  | _, [] => Some a
  | x :: a', y :: b' =>
      match broadcast_rev a' b' with
      | Some r =>
          if (x =? y)%nat then Some (x :: r)
          else if (x =? 1)%nat then Some (y :: r)
          else if (y =? 1)%nat then Some (x :: r)
          else None
      | None => None
      end
  end.

Definition broadcast (a b : Shape) : option Shape :=
  option_map (@rev nat) (broadcast_rev (rev a) (rev b)).

Definition shape_eqb (a b : Shape) : bool :=
  if list_eq_dec Nat.eq_dec a b then true else false.

(** An in-place operation cannot grow its first argument. *)
Definition broadcast_into (a b : Shape) : option Shape :=
  match broadcast a b with
  | Some s => if shape_eqb s a then Some a else None
  | None => None
  end.

(** Output size of a convolution along one spatial dimension. *)
Definition conv_out_size (c : Conv2d) (n : nat) : nat :=
  (n + 2 * conv_padding c - kernel_size c) / conv_stride c + 1.

(** [nn.Conv2d] takes a batch (N, C, H, W) or a single image (C, H, W). *)
Definition conv_out_shape (c : Conv2d) (s : Shape) : option Shape :=
  match s with
  | [b; ch; h; w] =>
      if (ch =? in_channels c)%nat && (0 <? conv_stride c)%nat
         && (kernel_size c <=? h + 2 * conv_padding c)%nat
         && (kernel_size c <=? w + 2 * conv_padding c)%nat
      then Some [b; out_channels c; conv_out_size c h; conv_out_size c w]
      else None
  | [ch; h; w] =>
      if (ch =? in_channels c)%nat && (0 <? conv_stride c)%nat
         && (kernel_size c <=? h + 2 * conv_padding c)%nat
         && (kernel_size c <=? w + 2 * conv_padding c)%nat
      then Some [out_channels c; conv_out_size c h; conv_out_size c w]
      else None
  | _ => None
  end.

(** Spatial size after a 3x3 convolution with padding 1, or a 1x1
    convolution without padding, of stride [s]. *)
Definition strided (s n : nat) : nat := (n - 1) / s + 1.

Definition pool_shape (s : Shape) : option Shape :=
  match s with
  | [b; ch; h; w] =>
      if (0 <? h)%nat && (0 <? w)%nat then Some [b; ch; 1; 1]%nat else None
  | [ch; h; w] =>
      if (0 <? h)%nat && (0 <? w)%nat then Some [ch; 1; 1]%nat else None
  | _ => None
  end.

(** [view(size(0), -1)]: the second dimension cannot be inferred for an
    empty batch. *)
Definition view_rows_shape (s : Shape) : option Shape :=
  match s with
  | [] => None
  | d :: rest => if (d =? 0)%nat then None else Some [d; numel rest]
  end.

Definition linear_shape (l : Linear) (s : Shape) : option Shape :=
  match rev s with
  | [] => None
  | d :: r =>
      if (d =? in_features l)%nat then Some (rev (out_features l :: r))
      else None
  end.

Definition param_shape (l : Linear) : Shape :=
  [out_features l; in_features l].

Definition obind {A B : Type} (f : A -> option B) (o : option A) : option B :=
  match o with
  | Some a => f a
  | None => None
  end.

Definition obind2 {A B C : Type} (f : A -> B -> option C)
    (a : option A) (b : option B) : option C :=
  match a, b with
  | Some x, Some y => f x y
  | _, _ => None
  end.

#[export] Instance shape_runtime : TensorRuntime (option Shape) := {
  param l := Some (param_shape l);
  add := obind2 broadcast;
  mul := obind2 broadcast;
  iadd := obind2 broadcast_into;
  conv2d c := obind (conv_out_shape c);
  leaky_relu _ x := x;
  adaptive_avg_pool := obind pool_shape;
  view_rows := obind view_rows_shape;
  linear l := obind (linear_shape l)
}.

(** ** The runtime on real-valued tensors *)

(** A tensor: its shape and its elements in row-major order. *)
Record Tensor : Type := mkTensor {
  tshape : Shape;
  tdata : list R
}.

(** The numeric kernels that stay external: the random draws of the
    initialisers, convolution and average pooling. *)
Record Kernels : Type := mkKernels {
  draw : Init -> Shape -> list R;
  conv_data : Conv2d -> list R -> Tensor -> list R;
  pool_data : Tensor -> list R
}.

(** The elements of a parameter tensor of shape [s]. *)
Definition realise (K : Kernels) (i : Init) (s : Shape) : list R :=
  match i with
  | ConstantInit c => repeat c (numel s)
  | _ => draw K i s
  end.

(** Multi-index of the [n]-th element of a tensor of shape [s]. *)
Fixpoint unravel (s : Shape) (n : nat) : list nat :=
  match s with
  | [] => []
  | d :: s' => (n / numel s') mod d :: unravel s' (n mod numel s')
  end.

(** Offset of a multi-index in a tensor of shape [s], dimensions of size
    one being broadcast. *)
Fixpoint ravel (s : Shape) (idx : list nat) : nat :=
  match s, idx with
  | d :: s', i :: idx' =>
      (if (d =? 1)%nat then 0 else i) * numel s' + ravel s' idx'
  | _, _ => 0
  end.

Definition pad_shape (rank : nat) (s : Shape) : Shape :=
  repeat 1%nat (rank - List.length s) ++ s.

(** Elementwise [f] on two tensors broadcast to shape [s]. *)
Definition broadcast_data (f : R -> R -> R) (s : Shape) (a b : Tensor)
    : list R :=
  let rank := List.length s in
  map (fun n =>
         let idx := unravel s n in
         f (nth (ravel (pad_shape rank (tshape a)) idx) (tdata a) 0%R)
           (nth (ravel (pad_shape rank (tshape b)) idx) (tdata b) 0%R))
      (seq 0 (numel s)).

Definition elementwise (f : R -> R -> R) (a b : Tensor) : option Tensor :=
  match broadcast (tshape a) (tshape b) with
  | Some s => Some (mkTensor s (broadcast_data f s a b))
  | None => None
  end.

Definition elementwise_into (f : R -> R -> R) (a b : Tensor)
    : option Tensor :=
  match broadcast_into (tshape a) (tshape b) with
  | Some s => Some (mkTensor s (broadcast_data f s a b))
  | None => None
  end.

Definition leaky (slope v : R) : R :=
  if Rlt_dec v 0 then (slope * v)%R else v.

(** [sum_k x[xo + k] * w[wo + k]] for [k < n] *)
Definition dot (n : nat) (x w : list R) (xo wo : nat) : R :=
  fold_right Rplus 0%R
    (map (fun k => (nth (xo + k) x 0 * nth (wo + k) w 0)%R) (seq 0 n)).

(** [y[r][j] = sum_k x[r][k] * w[j][k] + b[j]] *)
Definition linear_data (n_in n_out : nat) (w : list R) (b : option (list R))
    (rows : nat) (x : list R) : list R :=
  flat_map
    (fun r =>
       map (fun j =>
              (dot n_in x w (r * n_in) (j * n_in)
               + match b with
                 | Some bv => nth j bv 0
                 | None => 0
                 end)%R)
           (seq 0 n_out))
    (seq 0 rows).

Definition apply_linear (K : Kernels) (l : Linear) (x : Tensor)
    : option Tensor :=
  match linear_shape l (tshape x) with
  | Some s =>
      let w := realise K (weight l) (param_shape l) in
      let b := option_map (fun i => realise K i [out_features l]) (bias l) in
      Some (mkTensor s
              (linear_data (in_features l) (out_features l) w b
                           (numel (removelast (tshape x))) (tdata x)))
  | None => None
  end.

Definition apply_conv2d (K : Kernels) (c : Conv2d) (x : Tensor)
    : option Tensor :=
  match conv_out_shape c (tshape x) with
  | Some s =>
      let w := realise K (conv_weight c) (conv_weight_shape c) in
      Some (mkTensor s (conv_data K c w x))
  | None => None
  end.

Definition apply_pool (K : Kernels) (x : Tensor) : option Tensor :=
  match pool_shape (tshape x) with
  | Some s => Some (mkTensor s (pool_data K x))
  | None => None
  end.

Definition apply_view_rows (x : Tensor) : option Tensor :=
  match view_rows_shape (tshape x) with
  | Some s => Some (mkTensor s (tdata x))
  | None => None
  end.

Definition value_runtime (K : Kernels) : TensorRuntime (option Tensor) := {|
  param l := Some (mkTensor (param_shape l)
                            (realise K (weight l) (param_shape l)));
  add := obind2 (elementwise Rplus);
  mul := obind2 (elementwise Rmult);
  iadd := obind2 (elementwise_into Rplus);
  conv2d c := obind (apply_conv2d K c);
  leaky_relu slope :=
    option_map (fun t => mkTensor (tshape t) (map (leaky slope) (tdata t)));
  adaptive_avg_pool := obind (apply_pool K);
  view_rows := obind apply_view_rows;
  linear l := obind (apply_linear K l)
|}.

(** The all-zero tensor of a shape. *)
Definition zeros (s : Shape) : Tensor := mkTensor s (repeat 0%R (numel s)).

(** Kernels that fill their results with zeros; enough to run the models
    on shapes. *)
Definition zero_kernels : Kernels :=
  {| draw _ s := repeat 0%R (numel s);
     conv_data c _ x :=
       match conv_out_shape c (tshape x) with
       | Some s => repeat 0%R (numel s)
       | None => []
       end;
     pool_data x :=
       match pool_shape (tshape x) with
       | Some s => repeat 0%R (numel s)
       | None => []
       end |}.

(** The shape of a real-valued activation. *)
Definition shape_of (t : option Tensor) : option Shape :=
  option_map tshape t.

(** [nn.Sequential.forward] over the store: each block receives the
    tensor the previous one returned. *)
Definition Sequential_forward_st {T : Type} {RT : TensorRuntime T}
    (l : list FixupBasicBlock) (x : Ref) : St T Ref :=
  fold_left (fun input m => bind input (FixupBasicBlock_forward_st m))
            l (ret x).

(** *** Vocabulary of the statements about the stages *)

(** A block that keeps the resolution and has no downsampling layer. *)
Definition plain_block (b : FixupBasicBlock) : Prop :=
  downsample b = None /\ stride b = 1%nat.

(** A stage whose first block halves the resolution and carries the 1x1
    downsampling convolution from [c_in] to [c_out] channels, all its
    other blocks being plain. *)
Definition downsampling_stage (c_in c_out : nat) (l : list FixupBasicBlock)
    : Prop :=
  exists first rest d,
    l = first :: rest
    /\ stride first = 2%nat
    /\ downsample first = Some d
    /\ in_channels d = c_in /\ out_channels d = c_out
    /\ kernel_size d = 1%nat /\ conv_stride d = 2%nat
    /\ conv_padding d = 0%nat
    /\ Forall plain_block rest.

(** *** Vocabulary of the statements about values *)

(** A tensor holds as many elements as its shape says. *)
Definition well_formed (t : Tensor) : Prop :=
  List.length (tdata t) = numel (tshape t).

(** A convolution kernel returns as many elements as the output shape
    says, and zeros when its weight is zero. *)
Definition sized_conv (K : Kernels) : Prop :=
  forall c w x s,
    conv_out_shape c (tshape x) = Some s ->
    List.length (conv_data K c w x) = numel s.

Definition zero_weight_conv (K : Kernels) : Prop :=
  forall c n x s,
    conv_out_shape c (tshape x) = Some s ->
    conv_data K c (repeat 0%R n) x = repeat 0%R (numel s).

(** A (1, 1) parameter filled with zero, as a tensor. *)
Definition zero_bias : option Tensor := Some (mkTensor [1; 1] [0%R]).

(** [FixupResNet.forward] up to and including [layer4]. *)
Definition FixupResNet_stages {T : Type} {RT : TensorRuntime T}
    (self : FixupResNet) (x : T) : T :=
  let x := conv2d (net_conv1 self) x in
  let x := relu (add x (param (bias1 self))) in
  let x := Sequential_forward (layer1 self) x in
  let x := Sequential_forward (layer2 self) x in
  let x := Sequential_forward (layer3 self) x in
  let x := Sequential_forward (layer4 self) x in
  x.

End Fixup.

(** ** Recurrent language models *)

Module LM.

Local Open Scope string_scope.

(** A parameter: its tensor and its [requires_grad] flag. *)
Record Param (W : Type) : Type := mkParam {
  data : W;
  requires_grad : bool
}.

(** An integer tensor of token indices of shape (batch, seq_length), its
    entries in row-major order. *)
Record Tokens : Type := mkTokens {
  n_batch : nat;
  n_seq : nat;
  ids : list nat
}.

(** The entries fill the shape. *)
Definition token_tensor (inputs : Tokens) : Prop :=
  List.length (ids inputs) = n_batch inputs * n_seq inputs.

(** Every token is an index into a vocabulary of [voc] entries. *)
Definition in_vocabulary (voc : nat) (inputs : Tokens) : Prop :=
  Forall (fun id => id < voc) (ids inputs).

(** The structure of the modules held in [mogrifier_list]. *)
Record Linear : Type := nn_Linear {
  in_features : nat;
  out_features : nat;
  bias : bool
}.

Inductive Layer : Type :=
| ALinear (m : Linear)
| Sequential (ms : list Linear).

(** The operations of the tensor runtime the models call.  [W] are
    parameter tensors, [T] activations. *)
Class Runtime (W T : Type) : Type := {
  fresh : list nat -> W;                  (* a default-initialised parameter *)
  zero_ : W -> W;                         (* w.zero_() *)
  zeros : list nat -> T;                  (* torch.zeros(shape) *)
  embedding : W -> Tokens -> T;           (* (B, T) -> (B, T, E) *)
  select_step : T -> nat -> T;            (* t[:, step] *)
  select_layer : T -> nat -> T;           (* t[layer] *)
  lstm_cell : W -> W -> W -> W -> T -> T * T -> T * T;
                                          (* w_ih w_hh b_ih b_hh x (h, c) *)
  unsqueeze1 : T -> T;                    (* t.unsqueeze(1) *)
  cat1 : list T -> T;                     (* torch.cat(ts, dim=1) *)
  dropout_draw : T -> T;                  (* nn.Dropout in training mode *)
  linear : W -> W -> T -> T;              (* F.linear(t, weight, bias) *)
  log_softmax : T -> T;                   (* F.log_softmax(t, dim=-1) *)
  view_rows : nat -> T -> T;              (* t.contiguous().view(-1, n) *)
  sigmoid : T -> T;
  scalar_mul : Z -> T -> T;               (* k * t *)
  mul : T -> T -> T;                      (* a * b, elementwise *)
  call_layer : nat -> Layer -> T -> T     (* mogrifier_list[i](t) *)
}.

(** What a call does: it returns, or raises. *)
Inductive Outcome (A : Type) : Type :=
| Returns (a : A)
| UnboundLocalError
| KeyError.
Arguments UnboundLocalError {A}.
Arguments KeyError {A}.

Section Models.
Context {W T : Type} {RT : Runtime W T}.

Definition nn_Parameter (w : W) : Param W := mkParam w true.

Record Embedding : Type := mkEmbedding {
  num_embeddings : nat;
  embedding_dim : nat;
  emb_weight : Param W
}.

Record LinearM : Type := mkLinearM {
  lin_in : nat;
  lin_out : nat;
  lin_weight : Param W;       (* shape (lin_out, lin_in) *)
  lin_bias : Param W
}.

Record LSTMCell : Type := mkLSTMCell {
  input_size : nat;
  hidden_size : nat;
  weight_ih : Param W;
  weight_hh : Param W;
  bias_ih : Param W;
  bias_hh : Param W
}.

Definition nn_Embedding (voc emb : nat) : Embedding :=
  mkEmbedding voc emb (nn_Parameter (fresh [voc; emb])).

Definition logits_Linear (i o : nat) : LinearM :=
  mkLinearM i o (nn_Parameter (fresh [o; i])) (nn_Parameter (fresh [o])).

Definition nn_LSTMCell (i h : nat) : LSTMCell :=
  mkLSTMCell i h
    (nn_Parameter (fresh [4 * h; i])) (nn_Parameter (fresh [4 * h; h]))
    (nn_Parameter (fresh [4 * h])) (nn_Parameter (fresh [4 * h])).

(** [nn.LSTMCell.forward] *)
Definition LSTMCell_forward (self : LSTMCell) (x : T) (state : T * T)
    : T * T :=
  lstm_cell (data (weight_ih self)) (data (weight_hh self))
            (data (bias_ih self)) (data (bias_hh self)) x state.

(** [named_parameters()] of an [nn.LSTMCell], in registration order. *)
Definition LSTMCell_named_parameters (self : LSTMCell)
    : list (string * Param W) :=
  [("weight_ih", weight_ih self); ("weight_hh", weight_hh self);
   ("bias_ih", bias_ih self); ("bias_hh", bias_hh self)].

(** *** MogrifierLSTMCell *)

Record MogrifierLSTMCell : Type := mkMogrifier {
  mogrify_steps : Z;
  lstm : LSTMCell;
  m_hidden_size : nat;
  mogrifier_list : list Layer
}.

(** Python's [range(lo, hi)]. *)
Definition range (lo hi : Z) : list Z :=
  map (fun k => (lo + Z.of_nat k)%Z) (seq 0 (Z.to_nat (hi - lo))).

Definition default_k : nat := 90.

(** [MogrifierLSTMCell.__init__] *)
Definition MogrifierLSTMCell_init (input_size hidden_size : nat)
    (mogrify_steps : Z) (k : nat) : MogrifierLSTMCell :=
  let q := nn_Linear hidden_size input_size true in
  let r := nn_Linear input_size hidden_size true in
  let q_low := [nn_Linear hidden_size k false; nn_Linear k input_size true] in
  let r_low := [nn_Linear input_size k false; nn_Linear k hidden_size true] in
  let mogrifier_list :=
    if (input_size <? k)%nat || (hidden_size <? k)%nat then
      (* Full rank *)
      fold_left
        (fun ml i =>
           if (i mod 2 =? 0)%Z
           then (ml ++ [ALinear q])%list
           else (ml ++ [ALinear r])%list)
        (range 1 mogrify_steps)
        [ALinear q]                                   (* start with q *)
    else
      (* low-rank *)
      fold_left
        (fun ml i =>
           if (i mod 2 =? 0)%Z
           then (ml ++ [Sequential q_low])%list
           else (ml ++ [Sequential r_low])%list)
        (range 1 mogrify_steps)
        [Sequential q_low]                            (* start with q *)
  in
  {| mogrify_steps := mogrify_steps;
     lstm := nn_LSTMCell input_size hidden_size;
     m_hidden_size := hidden_size;
     mogrifier_list := mogrifier_list |}.

(** One pass through the body of the loop of [mogrify]; indexing past the
    end of [mogrifier_list] raises. *)
Definition mogrify_round (self : MogrifierLSTMCell) (st : option (T * T))
    (i : Z) : option (T * T) :=
  match st with
  | None => None
  | Some (x, h) =>
      match nth_error (mogrifier_list self) (Z.to_nat i) with
      | None => None
      | Some m =>
          if ((i + 1) mod 2 =? 0)%Z
          then Some (x, mul (scalar_mul 2 (sigmoid
                                 (call_layer (Z.to_nat i) m x))) h)
          else Some (mul (scalar_mul 2 (sigmoid
                            (call_layer (Z.to_nat i) m h))) x, h)
      end
  end.

(** [MogrifierLSTMCell.mogrify] *)
Definition mogrify (self : MogrifierLSTMCell) (x h : T) : option (T * T) :=
  fold_left (mogrify_round self) (range 0 (mogrify_steps self)) (Some (x, h)).

(** [MogrifierLSTMCell.forward] *)
Definition MogrifierLSTMCell_forward (self : MogrifierLSTMCell) (x : T)
    (states : T * T) : option (T * T) :=
  let '(ht, ct) := states in
  match mogrify self x ht with
  | Some (x, ht) => Some (LSTMCell_forward (lstm self) x (ht, ct))
  | None => None
  end.

(** *** LanguageModel *)

(** [nn.Dropout]: the identity in evaluation mode. *)
Definition Dropout (training : bool) (x : T) : T :=
  if training then dropout_draw x else x.

Record LanguageModel : Type := mkLanguageModel {
  emb_vectors : Embedding;
  lstm1 : LSTMCell;
  logits : LinearM;
  lstm2 : LSTMCell;
  training : bool
}.

Definition zero_data (p : Param W) : Param W :=
  mkParam (zero_ (data p)) (requires_grad p).

(** [LanguageModel.__init__], with [init_weights].  The probability given
    to [nn.Dropout] only shapes the training-mode draw [dropout_draw]. *)
Definition LanguageModel_init (voc_size emb_size hid_size : nat)
    : LanguageModel :=
  let logits := logits_Linear hid_size voc_size in
  {| emb_vectors := nn_Embedding voc_size emb_size;
     lstm1 := nn_LSTMCell emb_size hid_size;
     logits := mkLinearM (lin_in logits) (lin_out logits) (lin_weight logits)
                         (zero_data (lin_bias logits));
     lstm2 := nn_LSTMCell hid_size hid_size;
     training := true |}.

(** The recurrent state of the two layers and the collected [hid_seq]. *)
Definition LoopState : Type := ((T * T) * (T * T) * list T)%type.

(** The (hidden, cell) pairs the driver starts from. *)
Definition initial_states (batch_size hidden1 hidden2 : nat)
    : (T * T) * (T * T) :=
  ((zeros [batch_size; hidden1], zeros [batch_size; hidden1]),
   (zeros [batch_size; hidden2], zeros [batch_size; hidden2])).

(** The body of [for step in range(seq_length)], for cells given by their
    forward functions. *)
Definition loop_body (cell1 cell2 : T -> T * T -> option (T * T))
    (training : bool) (embed : T) (st : option LoopState) (step : nat)
    : option LoopState :=
  match st with
  | None => None
  | Some (s1, s2, hid_seq) =>
      match cell1 (select_step embed step) s1 with
      | None => None
      | Some (h1, c1) =>
          match cell2 (Dropout training h1) s2 with
          | None => None
          | Some (h2, c2) =>
              Some ((h1, c1), (h2, c2), (hid_seq ++ [unsqueeze1 h2])%list)
          end
      end
  end.

(** [LanguageModel.forward] up to [hid_seq = self.dropout(torch.cat(...))],
    from given starting states. *)
Definition hidden_sequence (cell1 cell2 : T -> T * T -> option (T * T))
    (training : bool) (embed : T) (seq_length : nat)
    (start : (T * T) * (T * T)) : option T :=
  match fold_left (loop_body cell1 cell2 training embed)
                  (seq 0 seq_length) (Some (start, [])) with
  | Some (_, _, hid_seq) => Some (Dropout training (cat1 hid_seq))
  | None => None
  end.

(** [LanguageModel.forward], for cells given by their sizes and forward
    functions; [initial_state] is accepted and never read. *)
Definition forward_with (hidden1 hidden2 : nat)
    (cell1 cell2 : T -> T * T -> option (T * T))
    (emb : Embedding) (logits : LinearM) (training : bool)
    (inputs : Tokens) (initial_state : option (T * T)) : option T :=
  let batch_size := n_batch inputs in
  let seq_length := n_seq inputs in
  let embed := embedding (data (emb_weight emb)) inputs in
  let start := initial_states batch_size hidden1 hidden2 in
  match hidden_sequence cell1 cell2 training embed seq_length start with
  | Some hid_seq =>
      let outputs := linear (data (lin_weight logits))
                            (data (lin_bias logits)) hid_seq in
      Some (log_softmax outputs)
  | None => None
  end.

Definition plain (c : LSTMCell) (x : T) (state : T * T) : option (T * T) :=
  Some (LSTMCell_forward c x state).

Definition LanguageModel_forward (self : LanguageModel) (inputs : Tokens)
    (initial_state : option (T * T)) : option T :=
  forward_with (hidden_size (lstm1 self)) (hidden_size (lstm2 self))
    (plain (lstm1 self)) (plain (lstm2 self))
    (emb_vectors self) (logits self) (training self) inputs initial_state.

(** *** MogrifierLanguageModel: the same driver over Mogrifier cells *)

Record MogrifierLanguageModel : Type := mkMogrifierLM {
  g_emb_vectors : Embedding;
  g_lstm1 : MogrifierLSTMCell;
  g_logits : LinearM;
  g_lstm2 : MogrifierLSTMCell;
  g_training : bool
}.

Definition MogrifierLanguageModel_init (mogrify_steps : Z)
    (voc_size emb_size hid_size : nat) : MogrifierLanguageModel :=
  let base := LanguageModel_init voc_size emb_size hid_size in
  {| g_emb_vectors := emb_vectors base;
     g_lstm1 := MogrifierLSTMCell_init emb_size hid_size mogrify_steps
                                       default_k;
     g_logits := logits base;
     g_lstm2 := MogrifierLSTMCell_init hid_size hid_size mogrify_steps
                                       default_k;
     g_training := training base |}.

Definition MogrifierLanguageModel_forward (self : MogrifierLanguageModel)
    (inputs : Tokens) (initial_state : option (T * T)) : option T :=
  forward_with (m_hidden_size (g_lstm1 self)) (m_hidden_size (g_lstm2 self))
    (MogrifierLSTMCell_forward (g_lstm1 self))
    (MogrifierLSTMCell_forward (g_lstm2 self))
    (g_emb_vectors self) (g_logits self) (g_training self)
    inputs initial_state.

(** *** CudnnLanguageModel and the fused [nn.LSTM] *)

(** A Python [dict] with string keys, in insertion order. *)
Fixpoint dict_set {V : Type} (k : string) (v : V) (d : list (string * V))
    : list (string * V) :=
  match d with
  | [] => [(k, v)]
  | (k', v') :: d' =>
      if String.eqb k k' then (k, v) :: d' else (k', v') :: dict_set k v d'
  end.

Fixpoint dict_get {V : Type} (k : string) (d : list (string * V))
    : option V :=
  match d with
  | [] => None
  | (k', v') :: d' => if String.eqb k k' then Some v' else dict_get k d'
  end.

Record LSTM : Type := mkLSTM {
  l_input_size : nat;
  l_hidden_size : nat;
  l_num_layers : nat;
  _parameters : list (string * Param W)
}.

Definition layer_suffix (l : nat) : string := "_l" ++ Fixup.str l.

(** The four parameters [nn.LSTM] registers for layer [l]. *)
Definition LSTM_layer_parameters (input_size hidden_size l : nat)
    : list (string * Param W) :=
  let layer_input_size :=
    match l with O => input_size | _ => hidden_size end in
  [("weight_ih" ++ layer_suffix l,
    nn_Parameter (fresh [4 * hidden_size; layer_input_size]));
   ("weight_hh" ++ layer_suffix l,
    nn_Parameter (fresh [4 * hidden_size; hidden_size]));
   ("bias_ih" ++ layer_suffix l, nn_Parameter (fresh [4 * hidden_size]));
   ("bias_hh" ++ layer_suffix l, nn_Parameter (fresh [4 * hidden_size]))].

(** [nn.LSTM(input_size, hidden_size, num_layers, batch_first=True)]; the
    constructor raises [ValueError] unless [hidden_size] and [num_layers]
    are greater than zero. *)
Definition nn_LSTM (input_size hidden_size num_layers : nat) : option LSTM :=
  if (hidden_size =? 0)%nat || (num_layers =? 0)%nat then None
  else Some (mkLSTM input_size hidden_size num_layers
               (flat_map (LSTM_layer_parameters input_size hidden_size)
                         (seq 0 num_layers))).


(** One layer of the fused unit over a sequence: the hidden state after
    every step. *)
Fixpoint LSTM_layer (w_ih w_hh b_ih b_hh : W) (xs : list T) (state : T * T)
    : list T :=
  match xs with
  | [] => []
  | x :: xs' =>
      let '(h, c) := lstm_cell w_ih w_hh b_ih b_hh x state in
      h :: LSTM_layer w_ih w_hh b_ih b_hh xs' (h, c)
  end.

(** The layers of the fused unit, one after the other; every layer but the
    last passes its outputs through dropout (in training mode). *)
Fixpoint LSTM_layers (self : LSTM) (training : bool) (hidden : T * T)
    (l remaining : nat) (xs : list T) : option (list T) :=
  match remaining with
  | O => Some xs
  | S remaining' =>
      let get name := dict_get (name ++ layer_suffix l) (_parameters self) in
      match get "weight_ih", get "weight_hh", get "bias_ih", get "bias_hh" with
      | Some w_ih, Some w_hh, Some b_ih, Some b_hh =>
          let state := (select_layer (fst hidden) l,
                        select_layer (snd hidden) l) in
          let hs := LSTM_layer (data w_ih) (data w_hh) (data b_ih) (data b_hh)
                               xs state in
          let hs := match remaining' with
                    | O => hs
                    | _ => map (Dropout training) hs
                    end in
          LSTM_layers self training hidden (S l) remaining' hs
      | _, _, _, _ => None
      end
  end.

(** [nn.LSTM.forward] on a batch-first input of [seq_length] steps: the
    output sequence of the last layer, of shape (B, T, H). *)
Definition LSTM_forward (self : LSTM) (training : bool) (x : T)
    (seq_length : nat) (hidden : T * T) : option T :=
  match LSTM_layers self training hidden 0 (l_num_layers self)
                    (map (select_step x) (seq 0 seq_length)) with
  | Some hs => Some (cat1 (map unsqueeze1 hs))
  | None => None
  end.

Record CudnnLanguageModel : Type := mkCudnnLM {
  c_emb_vectors : Embedding;
  c_logits : LinearM;
  c_lstm : LSTM;
  c_num_layers : nat;
  c_training : bool
}.

(** [CudnnLanguageModel.__init__] with [num_layers=2] *)
Definition CudnnLanguageModel_init (voc_size emb_size hid_size : nat)
    : option CudnnLanguageModel :=
  match nn_LSTM emb_size hid_size 2 with
  | Some lstm =>
      Some {| c_emb_vectors := nn_Embedding voc_size emb_size;
              c_logits := logits_Linear hid_size voc_size;
              c_lstm := lstm;
              c_num_layers := 2;
              c_training := true |}
  | None => None
  end.

(** The local [hidden] of [CudnnLanguageModel.forward]: bound only when
    [initial_state is None]. *)
Definition bound_hidden (self : CudnnLanguageModel) (inputs : Tokens)
    (initial_state : option (T * T)) : option (T * T) :=
  match initial_state with
  | None =>
      Some (zeros [c_num_layers self; n_batch inputs;
                   l_hidden_size (c_lstm self)],
            zeros [c_num_layers self; n_batch inputs;
                   l_hidden_size (c_lstm self)])
  | Some _ => None
  end.

(** [CudnnLanguageModel.forward] *)
Definition CudnnLanguageModel_forward (self : CudnnLanguageModel)
    (inputs : Tokens) (initial_state : option (T * T)) : Outcome T :=
  let embs := embedding (data (emb_weight (c_emb_vectors self))) inputs in
  match bound_hidden self inputs initial_state with
  | None => UnboundLocalError
  | Some hidden =>
      match LSTM_forward (c_lstm self) (c_training self) embs
                         (n_seq inputs) hidden with
      | None => KeyError
      | Some r_output =>
          let out := Dropout (c_training self) r_output in
          let out := view_rows (l_hidden_size (c_lstm self)) out in
          let logits := linear (data (lin_weight (c_logits self)))
                               (data (lin_bias (c_logits self))) out in
          Returns (log_softmax logits)
      end
  end.

(** [p.requires_grad = False; p.zero_()] on the entry [name]. *)
Definition freeze_and_zero (name : string) (d : list (string * Param W))
    : option (list (string * Param W)) :=
  match dict_get name d with
  | Some p => Some (dict_set name (mkParam (zero_ (data p)) false) d)
  | None => None
  end.

Definition copy_parameters (suffix : string)
    (named : list (string * Param W)) (d : list (string * Param W))
    : list (string * Param W) :=
  fold_left (fun d nw => dict_set (fst nw ++ suffix) (snd nw) d) named d.

(** [convert_to_cudnn_lstm]; [deepcopy] of a value is the value.  [None]
    is a raise, of the constructor of the fused model or of a lookup in
    [_parameters]. *)
Definition convert_to_cudnn_lstm (model : LanguageModel)
    : option CudnnLanguageModel :=
  let voc_size := lin_out (logits model) in
  let hid_size := lin_in (logits model) in
  let emb_size := embedding_dim (emb_vectors model) in
  match CudnnLanguageModel_init voc_size emb_size hid_size with
  | None => None
  | Some cudnn_model =>
      let lstm := c_lstm cudnn_model in
      let params := copy_parameters "_l0"
                      (LSTMCell_named_parameters (lstm1 model))
                      (_parameters lstm) in
      match freeze_and_zero "bias_hh_l0" params with
      | None => None
      | Some params =>
          let params := copy_parameters "_l1"
                          (LSTMCell_named_parameters (lstm2 model)) params in
          match freeze_and_zero "bias_hh_l1" params with
          | None => None
          | Some params =>
              Some {| c_emb_vectors := emb_vectors model;
                      c_logits := logits model;
                      c_lstm := mkLSTM (l_input_size lstm)
                                       (l_hidden_size lstm)
                                       (l_num_layers lstm) params;
                      c_num_layers := c_num_layers cudnn_model;
                      c_training := c_training cudnn_model |}
          end
      end
  end.

(** [model.eval()] *)
Definition LanguageModel_eval (self : LanguageModel) : LanguageModel :=
  {| emb_vectors := emb_vectors self; lstm1 := lstm1 self;
     logits := logits self; lstm2 := lstm2 self;
     training := false |}.

Definition CudnnLanguageModel_eval (self : CudnnLanguageModel)
    : CudnnLanguageModel :=
  {| c_emb_vectors := c_emb_vectors self; c_logits := c_logits self;
     c_lstm := c_lstm self; c_num_layers := c_num_layers self;
     c_training := false |}.

(** *** Vocabulary of the statements *)

(** The parameters of the fused unit after the conversion: the copies of
    the cells' parameters, the hidden-to-hidden biases zeroed and
    frozen. *)
Definition converted_parameters (model : LanguageModel)
    : list (String.string * Param W) :=
  [("weight_ih_l0"%string, weight_ih (lstm1 model));
   ("weight_hh_l0"%string, weight_hh (lstm1 model));
   ("bias_ih_l0"%string, bias_ih (lstm1 model));
   ("bias_hh_l0"%string,
    mkParam (zero_ (data (bias_hh (lstm1 model)))) false);
   ("weight_ih_l1"%string, weight_ih (lstm2 model));
   ("weight_hh_l1"%string, weight_hh (lstm2 model));
   ("bias_ih_l1"%string, bias_ih (lstm2 model));
   ("bias_hh_l1"%string,
    mkParam (zero_ (data (bias_hh (lstm2 model)))) false)].

(** A runtime in which slicing a zero tensor along its first dimension
    gives the zero tensor of the remaining shape. *)
Definition zero_slices : Prop :=
  forall n b h l, l < n -> select_layer (zeros [n; b; h]) l = zeros [b; h].

(** A single linear map from [src] to [dst] features. *)
Definition full_rank (src dst : nat) : Layer :=
  ALinear (nn_Linear src dst true).

(** Two linear maps through an inner dimension [k], the first without a
    bias. *)
Definition low_rank (src k dst : nat) : Layer :=
  Sequential [nn_Linear src k false; nn_Linear k dst true].

Definition is_factored (m : Layer) : bool :=
  match m with
  | Sequential [_; _] => true
  | _ => false
  end.

(** The projection to the vocabulary and the log-normalisation that end
    both forward passes. *)
Definition head (logits : LinearM) (hid_seq : T) : T :=
  log_softmax (linear (data (lin_weight logits)) (data (lin_bias logits))
                      hid_seq).

(** The gate of the Mogrifier: [2 * sigmoid(transform(a)) * b]. *)
Definition gate (i : nat) (m : Layer) (a b : T) : T :=
  mul (scalar_mul 2 (sigmoid (call_layer i m a))) b.

(** The rounds of mogrification as the specification words them:
    [Rounds self n (x, h) (x', h')] when [n] rounds, indexed from 0, lead
    from [(x, h)] to [(x', h')]. *)
Inductive Rounds (self : MogrifierLSTMCell) : nat -> T * T -> T * T -> Prop :=
| Rounds_none : forall st, Rounds self 0 st st
| Rounds_gate_h : forall i st x h m,
    Rounds self i st (x, h) ->
    nth_error (mogrifier_list self) i = Some m ->
    ((Z.of_nat i + 1) mod 2 = 0)%Z ->
    Rounds self (S i) st (x, gate i m x h)
| Rounds_gate_x : forall i st x h m,
    Rounds self i st (x, h) ->
    nth_error (mogrifier_list self) i = Some m ->
    ((Z.of_nat i + 1) mod 2 <> 0)%Z ->
    Rounds self (S i) st (gate i m h x, h).

End Models.

(** *** The runtime on shapes

    Parameters and activations are their shapes; an activation that could
    not be computed is [None]. *)

Import Fixup (Shape, numel, broadcast, shape_eqb, obind, obind2).

(** [nn.Embedding]: an index outside the table raises [IndexError]. *)
Definition embedding_shape (w : Shape) (inputs : Tokens) : option Shape :=
  match w with
  | [v; e] =>
      if (List.length (ids inputs) =? n_batch inputs * n_seq inputs)%nat
         && forallb (fun id => id <? v)%nat (ids inputs)
      then Some [n_batch inputs; n_seq inputs; e]
      else None
  | _ => None
  end.

Definition select_step_shape (step : nat) (s : Shape) : option Shape :=
  match s with
  | d0 :: d1 :: rest => if (step <? d1)%nat then Some (d0 :: rest) else None
  | _ => None
  end.

Definition select_layer_shape (l : nat) (s : Shape) : option Shape :=
  match s with
  | d0 :: rest => if (l <? d0)%nat then Some rest else None
  | _ => None
  end.

Definition lstm_cell_shape (w_ih w_hh b_ih b_hh : Shape)
    (x h c : option Shape) : option Shape :=
  match x, h, c with
  | Some [b; i], Some [b1; n], Some [b2; n2] =>
      if shape_eqb w_ih [4 * n; i] && shape_eqb w_hh [4 * n; n]
         && shape_eqb b_ih [4 * n] && shape_eqb b_hh [4 * n]
         && (b =? b1)%nat && (b =? b2)%nat && (n =? n2)%nat
      then Some [b; n] else None
  | _, _, _ => None
  end.

Definition unsqueeze1_shape (s : Shape) : option Shape :=
  match s with
  | d0 :: rest => Some (d0 :: 1%nat :: rest)
  | [] => None
  end.

(** Concatenation along dimension 1: every other dimension must agree. *)
Fixpoint cat1_shape (acc : Shape) (ts : list (option Shape))
    : option Shape :=
  match ts with
  | [] => Some acc
  | Some (d0 :: d1 :: rest) :: ts' =>
      match acc with
      | a0 :: a1 :: arest =>
          if (a0 =? d0)%nat && shape_eqb arest rest
          then cat1_shape (a0 :: a1 + d1 :: arest) ts'
          else None
      | _ => None
      end
  | _ => None
  end.

Definition cat1_shapes (ts : list (option Shape)) : option Shape :=
  match ts with
  | Some (d0 :: d1 :: rest) :: ts' => cat1_shape (d0 :: d1 :: rest) ts'
  | _ => None
  end.

Definition replace_last (n_in n_out : nat) (s : Shape) : option Shape :=
  match rev s with
  | [] => None
  | d :: r => if (d =? n_in)%nat then Some (rev (n_out :: r)) else None
  end.

Definition linear_shape (w b : Shape) (s : Shape) : option Shape :=
  match w with
  | [o; i] => if shape_eqb b [o] then replace_last i o s else None
  | _ => None
  end.

Definition view_rows_shape (n : nat) (s : Shape) : option Shape :=
  if (0 <? n)%nat && (numel s mod n =? 0)%nat
  then Some [numel s / n; n] else None.

Definition Linear_shape (m : Linear) (s : Shape) : option Shape :=
  replace_last (in_features m) (out_features m) s.

Definition Layer_shape (m : Layer) (s : option Shape) : option Shape :=
  match m with
  | ALinear l => obind (Linear_shape l) s
  | Sequential ms => fold_left (fun s l => obind (Linear_shape l) s) ms s
  end.

#[export] Instance shape_runtime : Runtime Shape (option Shape) := {
  fresh s := s;
  zero_ w := w;
  zeros s := Some s;
  embedding w inputs := embedding_shape w inputs;
  select_step t step := obind (select_step_shape step) t;
  select_layer t l := obind (select_layer_shape l) t;
  lstm_cell w_ih w_hh b_ih b_hh x state :=
    let s := lstm_cell_shape w_ih w_hh b_ih b_hh x (fst state) (snd state) in
    (s, s);
  unsqueeze1 := obind unsqueeze1_shape;
  cat1 := cat1_shapes;
  dropout_draw t := t;
  linear w b := obind (linear_shape w b);
  log_softmax t := t;
  view_rows n := obind (view_rows_shape n);
  sigmoid t := t;
  scalar_mul _ t := t;
  mul := obind2 broadcast;
  call_layer _ m := Layer_shape m
}.

(** *** The runtime on real-valued tensors

    Parameters and activations are tensors of reals in row-major order,
    with the arithmetic PyTorch documents for each operation.  What has no
    fixed value stays a parameter of the runtime: the default draw of a
    parameter, the training-mode dropout draw, and the modules of
    [mogrifier_list], whose weights the structure [Layer] does not
    carry. *)

Import Fixup (Tensor, mkTensor, tshape, tdata, linear_data).

Local Close Scope string_scope.

Definition slice (start len : nat) (l : list R) : list R :=
  firstn len (skipn start l).

Definition logistic (v : R) : R := (1 / (1 + exp (- v)))%R.

Definition real_embedding (w : Tensor) (inputs : Tokens) : option Tensor :=
  match embedding_shape (tshape w) inputs, tshape w with
  | Some s, [_; e] =>
      Some (mkTensor s (flat_map (fun id => slice (id * e) e (tdata w))
                                 (ids inputs)))
  | _, _ => None
  end.

Definition real_select_step (step : nat) (t : Tensor) : option Tensor :=
  match select_step_shape step (tshape t), tshape t with
  | Some s, b :: n :: rest =>
      let e := numel rest in
      Some (mkTensor s (flat_map (fun r => slice ((r * n + step) * e) e
                                                 (tdata t))
                                 (seq 0 b)))
  | _, _ => None
  end.

Definition real_select_layer (l : nat) (t : Tensor) : option Tensor :=
  match select_layer_shape l (tshape t) with
  | Some s => Some (mkTensor s (slice (l * numel s) (numel s) (tdata t)))
  | None => None
  end.

(** The LSTM cell: [gates = x W_ih^T + b_ih + h W_hh^T + b_hh], split
    along the last dimension into the input, forget, cell and output
    gates; [c' = sigmoid(f) * c + sigmoid(i) * tanh(g)],
    [h' = sigmoid(o) * tanh(c')]. *)
Definition real_lstm_cell (w_ih w_hh b_ih b_hh : Tensor)
    (x : option Tensor) (state : option Tensor * option Tensor)
    : option Tensor * option Tensor :=
  match x, fst state, snd state with
  | Some tx, Some th, Some tc =>
      match lstm_cell_shape (tshape w_ih) (tshape w_hh) (tshape b_ih)
                            (tshape b_hh) (Some (tshape tx))
                            (Some (tshape th)) (Some (tshape tc)),
            tshape tx with
      | Some [b; n], [_; i] =>
          let gx := linear_data i (4 * n) (tdata w_ih) (Some (tdata b_ih))
                                b (tdata tx) in
          let gh := linear_data n (4 * n) (tdata w_hh) (Some (tdata b_hh))
                                b (tdata th) in
          let gate k r j :=
            (nth (r * (4 * n) + k * n + j) gx 0
             + nth (r * (4 * n) + k * n + j) gh 0)%R in
          let cell r j :=
            (logistic (gate 1%nat r j) * nth (r * n + j) (tdata tc) 0
             + logistic (gate 0%nat r j) * tanh (gate 2%nat r j))%R in
          let at_each (f : nat -> nat -> R) :=
            flat_map (fun r => map (f r) (seq 0 n)) (seq 0 b) in
          (Some (mkTensor [b; n]
                   (at_each (fun r j =>
                      (logistic (gate 3%nat r j) * tanh (cell r j))%R))),
           Some (mkTensor [b; n] (at_each cell)))
      | _, _ => (None, None)
      end
  | _, _, _ => (None, None)
  end.

Definition real_unsqueeze1 (t : Tensor) : option Tensor :=
  match unsqueeze1_shape (tshape t) with
  | Some s => Some (mkTensor s (tdata t))
  | None => None
  end.

Definition real_cat1 (ts : list (option Tensor)) : option Tensor :=
  match cat1_shapes (map (option_map tshape) ts) with
  | Some (b :: n :: rest) =>
      Some (mkTensor (b :: n :: rest)
              (flat_map
                 (fun r =>
                    flat_map
                      (fun t =>
                         match t with
                         | Some t =>
                             let len := numel (tl (tshape t)) in
                             slice (r * len) len (tdata t)
                         | None => []
                         end)
                      ts)
                 (seq 0 b)))
  | _ => None
  end.

Definition real_linear (w b : Tensor) (t : Tensor) : option Tensor :=
  match linear_shape (tshape w) (tshape b) (tshape t), tshape w with
  | Some s, [o; i] =>
      Some (mkTensor s (linear_data i o (tdata w) (Some (tdata b))
                                    (numel (removelast (tshape t)))
                                    (tdata t)))
  | _, _ => None
  end.

(** [x_j - log(sum_k exp(x_k))] along the last dimension. *)
Definition real_log_softmax (t : Tensor) : option Tensor :=
  match rev (tshape t) with
  | n :: r =>
      Some (mkTensor (tshape t)
              (flat_map
                 (fun row =>
                    let xs := slice (row * n) n (tdata t) in
                    let lse := ln (fold_right Rplus 0%R (map exp xs)) in
                    map (fun v => (v - lse)%R) xs)
                 (seq 0 (numel r))))
  | [] => None
  end.

Definition real_view_rows (n : nat) (t : Tensor) : option Tensor :=
  match view_rows_shape n (tshape t) with
  | Some s => Some (mkTensor s (tdata t))
  | None => None
  end.

Definition pointwise (f : R -> R) (t : option Tensor) : option Tensor :=
  option_map (fun t => mkTensor (tshape t) (map f (tdata t))) t.

Definition real_runtime (draw : list nat -> Tensor)
    (drop : option Tensor -> option Tensor)
    (layer : nat -> Layer -> option Tensor -> option Tensor)
    : Runtime Tensor (option Tensor) := {|
  fresh := draw;
  zero_ w := Fixup.zeros (tshape w);
  zeros s := Some (Fixup.zeros s);
  embedding := real_embedding;
  select_step t step := obind (real_select_step step) t;
  select_layer t l := obind (real_select_layer l) t;
  lstm_cell := real_lstm_cell;
  unsqueeze1 := obind real_unsqueeze1;
  cat1 := real_cat1;
  dropout_draw := drop;
  linear w b := obind (real_linear w b);
  log_softmax := obind real_log_softmax;
  view_rows n := obind (real_view_rows n);
  sigmoid := pointwise logistic;
  scalar_mul k := pointwise (Rmult (IZR k));
  mul := obind2 (Fixup.elementwise Rmult);
  call_layer := layer
|}.

(** A two-cell model over one-dimensional embeddings and hidden states
    and a vocabulary of two tokens.  All its parameters are zero except
    the cell-gate entry of [lstm1.bias_hh] and of [lstm2.weight_ih] and
    the first row of the logits weight, which are one. *)
Definition small_model : LanguageModel (W := Tensor) :=
  let p s d := mkParam (mkTensor s d) true in
  {| emb_vectors := mkEmbedding 2 1 (p [2; 1]%nat [0; 0]%R);
     lstm1 := mkLSTMCell 1 1
                (p [4; 1]%nat [0; 0; 0; 0]%R) (p [4; 1]%nat [0; 0; 0; 0]%R)
                (p [4]%nat [0; 0; 0; 0]%R) (p [4]%nat [0; 0; 1; 0]%R);
     logits := mkLinearM 1 2 (p [2; 1]%nat [1; 0]%R) (p [2]%nat [0; 0]%R);
     lstm2 := mkLSTMCell 1 1
                (p [4; 1]%nat [0; 0; 1; 0]%R) (p [4; 1]%nat [0; 0; 0; 0]%R)
                (p [4]%nat [0; 0; 0; 0]%R) (p [4]%nat [0; 0; 0; 0]%R);
     training := false |}.

(** A batch of one sequence of one token, the token 0. *)
Definition one_token : Tokens := mkTokens 1 1 [0].

(** A runtime whose unspecified parts are the simplest ones: zero draws,
    a dropout that drops nothing, transforms that return their input. *)
Definition plain_real_runtime : Runtime Tensor (option Tensor) :=
  real_runtime Fixup.zeros (fun t => t) (fun _ _ t => t).

(** A row of log-probabilities: its exponentials sum to one. *)
Definition normalised (row : list R) : Prop :=
  fold_right Rplus 0%R (map exp row) = 1%R.

End LM.

(** * Properties of the Fixup network *)

Module FixupSpec.

Import Fixup.

Unset Implicit Arguments.

Local Open Scope string_scope.

(** ** Names of the visited modules *)

Lemma chars_app (a b : string) :
  list_ascii_of_string (a ++ b)
  = (list_ascii_of_string a ++ list_ascii_of_string b)%list.
Proof.
  induction a as [|ch a IH]; simpl; [reflexivity | now rewrite IH].
Qed.

Lemma contains_suffix_scale (p : string) :
  contains "scale" (p ++ ".scale") = true.
Proof.
  induction p as [|ch p IH].
  - reflexivity.
  - change (String ch p ++ ".scale") with (String ch (p ++ ".scale")).
    cbn [contains]. rewrite IH. apply orb_true_r.
Qed.

(** A name without the letter c does not contain "scale". *)
Lemma contains_scale_without_c (s : string) :
  ~ In "c"%char (list_ascii_of_string s) -> contains "scale" s = false.
Proof.
  induction s as [|a s IH]; intros Hc.
  - reflexivity.
  - cbn [contains]. rewrite IH.
    + rewrite orb_false_r. cbn [String.prefix].
      destruct (ascii_dec "s" a) as [_|_]; [|reflexivity].
      destruct s as [|b s]; [reflexivity|].
      cbn [String.prefix].
      destruct (ascii_dec "c" b) as [E|_]; [|reflexivity].
      exfalso. apply Hc. simpl. right. left. now symmetry.
    + intros Hin. apply Hc. simpl. now right.
Qed.

Lemma digits_without_c (d : Decimal.uint) :
  ~ In "c"%char
       (list_ascii_of_string (DecimalString.NilEmpty.string_of_uint d)).
Proof.
  induction d; simpl; try tauto;
    intros [E|Hin]; try discriminate; auto.
Qed.

Lemma str_without_c (i : nat) : ~ In "c"%char (list_ascii_of_string (str i)).
Proof.
  unfold str, DecimalString.NilZero.string_of_uint.
  destruct (Nat.to_uint i) eqn:E; try apply digits_without_c.
  simpl. intros [H|[]]. discriminate.
Qed.

(** The name of a bias of a block: stage, index, attribute. *)
Lemma bias_name_not_scale (stage attr : string) (i : nat) :
  ~ In "c"%char (list_ascii_of_string stage) ->
  ~ In "c"%char (list_ascii_of_string attr) ->
  contains "scale" ((stage ++ "." ++ str i) ++ attr) = false.
Proof.
  intros Hs Ha. apply contains_scale_without_c.
  rewrite !chars_app. rewrite !in_app_iff.
  intros [[H|[H|H]]|H].
  - now apply Hs.
  - simpl in H. destruct H as [H|[]]. discriminate.
  - now apply (str_without_c i).
  - now apply Ha.
Qed.

(** ** What the loop leaves in a block *)

Lemma init_linear_scale (name : string) (m : Linear) :
  contains "scale" name = true ->
  bias m = None ->
  weight (init_linear name m) = ConstantInit 1.
Proof.
  intros Hn Hb. unfold init_linear. rewrite Hn.
  simpl. reflexivity.
Qed.

Lemma init_linear_zero (name : string) (m : Linear) :
  contains "scale" name = false ->
  weight (init_linear name m) = ConstantInit 0.
Proof.
  intros Hn. unfold init_linear. rewrite Hn.
  simpl. destruct (bias m); reflexivity.
Qed.

Lemma init_linear_bias (name : string) (m : Linear) (b : Init) :
  bias m = Some b ->
  bias (init_linear name m) = Some (ConstantInit 0).
Proof.
  intros Hb. unfold init_linear. simpl. rewrite Hb.
  destruct (contains "scale" name); reflexivity.
Qed.

Lemma init_linear_no_bias (name : string) (m : Linear) :
  bias m = None -> bias (init_linear name m) = None.
Proof.
  intros Hb. unfold init_linear. simpl. rewrite Hb.
  destruct (contains "scale" name); simpl; assumption.
Qed.

Lemma init_linear_sizes (name : string) (m : Linear) :
  in_features (init_linear name m) = in_features m
  /\ out_features (init_linear name m) = out_features m.
Proof.
  unfold init_linear. simpl.
  destruct (bias m), (contains "scale" name); simpl; auto.
Qed.

(** The blocks of a visited stage are the visited blocks of the stage. *)
Lemma in_visit_sequential_from L prefix i l b :
  In b (visit_sequential_from L prefix i l) ->
  exists j m, In m l /\ b = visit_block L (prefix ++ "." ++ str j) m.
Proof.
  revert i. induction l as [|m l IH]; intros i; simpl.
  - intros [].
  - intros [E|Hin].
    + exists i, m. split; [now left | now symmetry].
    + destruct (IH _ Hin) as (j & m' & Hm & Hb).
      exists j, m'. split; [now right | assumption].
Qed.

Lemma in_make_layer inplanes planes blocks stride m :
  In m (fst (_make_layer inplanes planes blocks stride)) ->
  exists i s ds, m = FixupBasicBlock_init i planes s ds.
Proof.
  unfold _make_layer. cbn [fst]. intros [E|Hin].
  - subst m. eauto.
  - apply repeat_spec in Hin. subst m. eauto.
Qed.

Lemma visit_sequential_length L prefix l :
  List.length (visit_sequential L prefix l) = List.length l.
Proof.
  unfold visit_sequential. generalize 0%nat.
  induction l as [|m l IH]; intros i; simpl; [reflexivity | now rewrite IH].
Qed.

(** ** The constructed network *)

Lemma fan_term_dims (c : Conv2d) :
  fan_term c
  = (INR (out_channels c) * (INR (kernel_size c) * INR (kernel_size c)))%R.
Proof.
  unfold fan_term, conv_weight_shape. cbn [fold_right].
  now rewrite Nat.mul_1_r, mult_INR.
Qed.

Lemma FixupResNet_init_inv layers num_classes net :
  FixupResNet_init layers num_classes = Some net ->
  exists net0,
    assemble layers num_classes = Some net0
    /\ (0 < total layers)%Z
    /\ num_layers net0 = total layers
    /\ net = init_loop net0.
Proof.
  unfold FixupResNet_init. intros Hc.
  destruct (assemble layers num_classes) as [net0|] eqn:Ha; [|discriminate].
  destruct (0 <? num_layers net0)%Z eqn:HL; [|discriminate].
  injection Hc as <-. exists net0.
  assert (HN : num_layers net0 = total layers).
  { unfold assemble in Ha.
    destruct layers as [|l0 [|l1 [|l2 [|l3 rest]]]]; try discriminate.
    injection Ha as <-. reflexivity. }
  repeat split; auto. rewrite <- HN. now apply Z.ltb_lt.
Qed.

(** Every block of a constructed network is a freshly built block after
    its visit, under a name made of its stage and its index. *)
Lemma constructed_block layers num_classes net b :
  FixupResNet_init layers num_classes = Some net ->
  In b (blocks net) ->
  exists stage j i planes s ds,
    ~ In "c"%char (list_ascii_of_string stage)
    /\ b = visit_block (total layers) (stage ++ "." ++ str j)
                       (FixupBasicBlock_init i planes s ds).
Proof.
  intros Hc Hb.
  destruct (FixupResNet_init_inv _ _ _ Hc) as (net0 & Ha & _ & HN & ->).
  unfold assemble in Ha.
  destruct layers as [|l0 [|l1 [|l2 [|l3 rest]]]]; try discriminate.
  injection Ha as <-.
  unfold blocks, init_loop in Hb. cbn [layer1 layer2 layer3 layer4] in Hb.
  cbn [num_layers] in Hb.
  rewrite !in_app_iff in Hb.
  destruct Hb as [Hb|[Hb|[Hb|Hb]]];
    apply in_visit_sequential_from in Hb;
    destruct Hb as (j & m & Hm & ->);
    apply in_make_layer in Hm;
    destruct Hm as (i & s & ds & ->).
  - exists "layer1", j, i, 64%nat, s, ds. split; [|reflexivity].
    simpl. intuition discriminate.
  - exists "layer2", j, i, 128%nat, s, ds. split; [|reflexivity].
    simpl. intuition discriminate.
  - exists "layer3", j, i, 256%nat, s, ds. split; [|reflexivity].
    simpl. intuition discriminate.
  - exists "layer4", j, i, 512%nat, s, ds. split; [|reflexivity].
    simpl. intuition discriminate.
Qed.

(** C1: after construction from the layer-count list [layers], with
    [L] its sum, every block has [conv1] drawn from a zero-mean normal
    distribution of standard deviation [sqrt(2 / (out * k * k)) * L^(-1/2)]
    for [conv1]'s own output channels and kernel size, [conv2] filled
    with zero, and its downsampling convolution, when there is one, drawn
    with standard deviation [sqrt(2 / (out * k * k))] for the downsampling
    layer's own dimensions, without the depth factor. *)
Theorem fixup_conv_initialisation layers num_classes net b :
  FixupResNet_init layers num_classes = Some net ->
  In b (blocks net) ->
  conv_weight (conv1 b)
  = NormalInit 0 (kaiming_std (conv1 b)
                  * Rpower (IZR (total layers)) (- (1 / 2)))
  /\ conv_weight (conv2 b) = ConstantInit 0
  /\ forall d, downsample b = Some d ->
               conv_weight d = NormalInit 0 (kaiming_std d).
Proof.
  intros Hc Hb.
  destruct (constructed_block _ _ _ _ Hc Hb)
    as (stage & j & i & planes & s & ds & _ & ->).
  unfold visit_block, init_block.
  cbn [conv1 conv2 downsample FixupBasicBlock_init conv_weight
       set_conv_weight].
  repeat split.
  - rewrite fan_term_dims. reflexivity.
  - intros d Hd. destruct ds as [d0|]; [|discriminate].
    injection Hd as <-. cbn [conv_weight set_conv_weight].
    rewrite fan_term_dims. reflexivity.
Qed.

Lemma fixup_conv_initialisation_witness :
  exists net b,
    FixupResNet18 10 = Some net /\ In b (blocks net)
    /\ conv_weight (conv1 b)
       = NormalInit 0 (kaiming_std (conv1 b) * Rpower 8 (- (1 / 2)))
    /\ conv_weight (conv2 b) = ConstantInit 0.
Proof.
  assert (Hc : exists net, FixupResNet18 10 = Some net)
    by (eexists; reflexivity).
  destruct Hc as [net Hc]. exists net.
  assert (Hb : exists b, In b (blocks net)).
  { unfold FixupResNet18 in Hc.
    destruct (FixupResNet_init_inv _ _ _ Hc) as (net0 & Ha & _ & _ & ->).
    injection Ha as <-. eexists. left. reflexivity. }
  destruct Hb as [b Hb]. exists b.
  destruct (fixup_conv_initialisation [2; 2; 2; 2]%Z 10 net b Hc Hb)
    as (H1 & H2 & _).
  repeat split; assumption.
Defined.

Lemma constructed_head layers num_classes net :
  FixupResNet_init layers num_classes = Some net ->
  bias1 net = init_linear "bias1" (nn_Linear 1 1 false)
  /\ bias2 net = init_linear "bias2" (nn_Linear 1 1 false)
  /\ fc net = init_linear "fc" (nn_Linear (512 * expansion) num_classes true).
Proof.
  intros Hc.
  destruct (FixupResNet_init_inv _ _ _ Hc) as (net0 & Ha & _ & _ & ->).
  unfold assemble in Ha.
  destruct layers as [|l0 [|l1 [|l2 [|l3 rest]]]]; try discriminate.
  injection Ha as <-. repeat split.
Qed.

(** C7: after construction every block's [scale] is filled with one, its
    four biases are filled with zero, and so are the stem bias [bias1] and
    the bias [bias2] before the classifier. *)
Theorem fixup_scale_and_bias_initialisation layers num_classes net :
  FixupResNet_init layers num_classes = Some net ->
  (forall b, In b (blocks net) ->
     weight (scale b) = ConstantInit 1
     /\ weight (bias1a b) = ConstantInit 0
     /\ weight (bias1b b) = ConstantInit 0
     /\ weight (bias2a b) = ConstantInit 0
     /\ weight (bias2b b) = ConstantInit 0)
  /\ weight (bias1 net) = ConstantInit 0
  /\ weight (bias2 net) = ConstantInit 0.
Proof.
  intros Hc. split.
  - intros b Hb.
    destruct (constructed_block _ _ _ _ Hc Hb)
      as (stage & j & i & planes & s & ds & Hstage & ->).
    unfold visit_block.
    cbn [scale bias1a bias1b bias2a bias2b init_block FixupBasicBlock_init].
    split.
    { apply init_linear_scale; [apply contains_suffix_scale | reflexivity]. }
    repeat split; apply init_linear_zero; apply bias_name_not_scale;
      try assumption; simpl; intuition discriminate.
  - destruct (constructed_head _ _ _ Hc) as (-> & -> & _).
    split; reflexivity.
Qed.

Lemma fixup_scale_and_bias_initialisation_witness :
  exists net,
    FixupResNet18 10 = Some net
    /\ (forall b, In b (blocks net) -> weight (scale b) = ConstantInit 1)
    /\ weight (bias1 net) = ConstantInit 0.
Proof.
  assert (Hc : exists net, FixupResNet18 10 = Some net)
    by (eexists; reflexivity).
  destruct Hc as [net Hc]. exists net.
  destruct (fixup_scale_and_bias_initialisation [2; 2; 2; 2]%Z 10 net Hc)
    as (Hb & H1 & _).
  repeat split; try assumption.
  intros b Hin. apply (Hb b Hin).
Defined.

(** The classifier is an [nn.Linear], so the loop zeroes its weight and
    its bias as it does for the 1x1 layers. *)
Lemma classifier_zeroed layers num_classes net :
  FixupResNet_init layers num_classes = Some net ->
  weight (fc net) = ConstantInit 0
  /\ bias (fc net) = Some (ConstantInit 0)
  /\ in_features (fc net) = 512%nat
  /\ out_features (fc net) = num_classes.
Proof.
  intros Hc. destruct (constructed_head _ _ _ Hc) as (_ & _ & ->).
  repeat split.
Qed.

(** ** The forward pass of a block *)

Local Close Scope string_scope.

Section BlockForward.
Context {T : Type} {RT : TensorRuntime T}.

(** The store during a call: the caller's tensors [s], then the tensors
    [l] the call has allocated. *)
Lemma load_caller (s l : Store T) (x : Ref) (v : T) :
  nth_error s x = Some v -> load x (s ++ l) = Some (v, s ++ l).
Proof.
  intros Hx. unfold load.
  rewrite nth_error_app1 by (apply nth_error_Some; congruence).
  now rewrite Hx.
Qed.

Lemma load_first (s : Store T) (x : Ref) (v : T) :
  nth_error s x = Some v -> load x s = Some (v, s ++ []).
Proof.
  intros Hx. rewrite app_nil_r. unfold load. now rewrite Hx.
Qed.

Lemma load_local (s l : Store T) (k : nat) :
  load (List.length s + k) (s ++ l)
  = match nth_error l k with
    | Some v => Some (v, s ++ l)
    | None => None
    end.
Proof.
  unfold load. rewrite nth_error_app2 by lia.
  replace (List.length s + k - List.length s) with k by lia.
  reflexivity.
Qed.

Lemma alloc_local (s l : Store T) (v : T) :
  alloc v (s ++ l)
  = Some (List.length s + List.length l, s ++ (l ++ [v])).
Proof.
  unfold alloc. now rewrite length_app, app_assoc.
Qed.

Lemma overwrite_local (s l : Store T) (k : nat) (v : T) :
  overwrite (List.length s + k) v (s ++ l) = s ++ overwrite k v l.
Proof.
  induction s as [|w s IH]; simpl; [reflexivity | now rewrite IH].
Qed.

Lemma store_local (s l : Store T) (k : nat) (v : T) :
  k < List.length l ->
  store (List.length s + k) v (s ++ l) = Some (tt, s ++ overwrite k v l).
Proof.
  intros Hk. unfold store.
  replace (List.length s + k <? List.length (s ++ l)) with true.
  - now rewrite overwrite_local.
  - symmetry. apply Nat.ltb_lt. rewrite length_app. lia.
Qed.

Lemma nth_error_local (s l : Store T) (k : nat) :
  nth_error (s ++ l) (List.length s + k) = nth_error l k.
Proof.
  rewrite nth_error_app2 by lia. f_equal. lia.
Qed.

Ltac run_store Hx :=
  repeat first
    [ rewrite (load_caller _ _ _ _ Hx)
    | rewrite alloc_local
    | rewrite load_local
    | rewrite store_local by (simpl; lia)
    | progress cbn [List.length app overwrite Nat.add nth_error] ].

(** C2: the forward pass of a block on the tensor [v] held at [x] returns
    a tensor holding [activation(t + identity)], where [t] comes from
    [conv1(v + bias1a)], [activation(. + bias1b)], [conv2(. + bias2a)],
    [. * scale + bias2b] in this order, [identity] is
    [downsample(v + bias1a)] when the block has a downsampling layer and
    [v] otherwise, and the activation is the leaky rectifier; no tensor
    the caller held, [x] included, is overwritten.  The pure
    [FixupBasicBlock_forward] computes the same tensor. *)
Theorem block_forward_steps (self : FixupBasicBlock) (s : Store T)
    (x : Ref) (v : T) :
  nth_error s x = Some v ->
  let t1 := conv2d (conv1 self) (add v (param (bias1a self))) in
  let t2 := leaky_relu negative_slope (add t1 (param (bias1b self))) in
  let t3 := conv2d (conv2 self) (add t2 (param (bias2a self))) in
  let t4 := add (mul t3 (param (scale self))) (param (bias2b self)) in
  let identity :=
    match downsample self with
    | Some d => conv2d d (add v (param (bias1a self)))
    | None => v
    end in
  let out := leaky_relu negative_slope (iadd t4 identity) in
  FixupBasicBlock_forward self v = out
  /\ exists r s',
       FixupBasicBlock_forward_st self x s = Some (r, s')
       /\ nth_error s' r = Some out
       /\ forall i, i < List.length s -> nth_error s' i = nth_error s i.
Proof.
  intros Hx. cbv zeta. split.
  - unfold FixupBasicBlock_forward, relu.
    destruct (downsample self); reflexivity.
  - unfold FixupBasicBlock_forward_st, add_param, mul_param, apply_conv,
      relu_, iadd_, bind, ret.
    rewrite (load_first _ _ _ Hx).
    destruct (downsample self) as [d|].
    + run_store Hx.
      eexists. eexists. split; [reflexivity|]. split.
      * rewrite nth_error_local. reflexivity.
      * intros i Hi. now rewrite nth_error_app1.
    + run_store Hx.
      eexists. eexists. split; [reflexivity|]. split.
      * rewrite nth_error_local. reflexivity.
      * intros i Hi. now rewrite nth_error_app1.
Qed.

End BlockForward.

Lemma block_forward_steps_witness :
  let self := FixupBasicBlock_init 64 64 1 None in
  let v := Some [1; 64; 8; 8] in
  nth_error [v] 0 = Some v
  /\ FixupBasicBlock_forward self v = Some [1; 64; 8; 8].
Proof.
  intros self v. split; [reflexivity|].
  destruct (block_forward_steps self [v] 0 v eq_refl) as [E _].
  rewrite E. reflexivity.
Defined.

(** ** Shapes *)

Lemma broadcast_rev_refl (l : list nat) : broadcast_rev l l = Some l.
Proof.
  induction l as [|a l IH]; simpl; [reflexivity|].
  now rewrite IH, Nat.eqb_refl.
Qed.

Lemma broadcast_refl (s : Shape) : broadcast s s = Some s.
Proof.
  unfold broadcast. rewrite broadcast_rev_refl. simpl.
  now rewrite rev_involutive.
Qed.

Lemma shape_eqb_refl (s : Shape) : shape_eqb s s = true.
Proof.
  unfold shape_eqb. destruct (list_eq_dec Nat.eq_dec s s); congruence.
Qed.

Lemma broadcast_into_refl (s : Shape) : broadcast_into s s = Some s.
Proof.
  unfold broadcast_into. now rewrite broadcast_refl, shape_eqb_refl.
Qed.

Lemma broadcast_rev_one (a : nat) (r : list nat) :
  broadcast_rev (a :: r) [1] = Some (a :: r).
Proof.
  simpl. destruct r; destruct (a =? 1) eqn:E; try reflexivity;
    apply Nat.eqb_eq in E; now subst.
Qed.

(** Adding a (1, 1) parameter keeps the shape of a tensor of rank two or
    more. *)
Lemma broadcast_scalar (s : Shape) :
  2 <= List.length s -> broadcast s [1; 1] = Some s.
Proof.
  intros Hs. unfold broadcast.
  rewrite <- (rev_involutive s) at 2.
  rewrite <- length_rev in Hs.
  destruct (rev s) as [|a [|b r]]; simpl in Hs; try lia.
  change (rev [1; 1]) with [1; 1].
  change (broadcast_rev (a :: b :: r) [1; 1])
    with (match broadcast_rev (b :: r) [1] with
          | Some r' =>
              if a =? 1 then Some (a :: r')
              else if a =? 1 then Some (1 :: r')
              else if 1 =? 1 then Some (a :: r')
              else None
          | None => None
          end).
  rewrite broadcast_rev_one.
  destruct (a =? 1); reflexivity.
Qed.

Lemma param_shape_init_linear (name : String.string) (m : Linear) :
  param_shape (init_linear name m) = param_shape m.
Proof.
  unfold param_shape. now destruct (init_linear_sizes name m) as [-> ->].
Qed.

Lemma add_bias_shape (name : String.string) (s : Shape) :
  2 <= List.length s ->
  add (Some s) (param (init_linear name (nn_Linear 1 1 false))) = Some s.
Proof.
  intros Hs. cbn [add param shape_runtime obind2].
  rewrite param_shape_init_linear. now apply broadcast_scalar.
Qed.

Lemma mul_scale_shape (name : String.string) (s : Shape) :
  2 <= List.length s ->
  mul (Some s) (param (init_linear name (nn_Linear 1 1 false))) = Some s.
Proof.
  intros Hs. cbn [mul param shape_runtime obind2].
  rewrite param_shape_init_linear. now apply broadcast_scalar.
Qed.

Lemma strided_pos (s n : nat) : 1 <= strided s n.
Proof. unfold strided. lia. Qed.

Lemma strided_one (n : nat) : 1 <= n -> strided 1 n = n.
Proof. intros Hn. unfold strided. rewrite Nat.div_1_r. lia. Qed.

Lemma conv3x3_shape (w : Init) (i p st b h wd : nat) :
  0 < st -> 1 <= h -> 1 <= wd ->
  conv_out_shape (set_conv_weight w (conv3x3 i p st)) [b; i; h; wd]
  = Some [b; p; strided st h; strided st wd].
Proof.
  intros Hst Hh Hw. unfold conv_out_shape, conv_out_size, strided.
  cbn [set_conv_weight conv3x3 in_channels out_channels kernel_size
       conv_stride conv_padding].
  rewrite Nat.eqb_refl.
  replace (0 <? st) with true by (symmetry; now apply Nat.ltb_lt).
  replace (3 <=? h + 2 * 1) with true by (symmetry; apply Nat.leb_le; lia).
  replace (3 <=? wd + 2 * 1) with true by (symmetry; apply Nat.leb_le; lia).
  cbn [andb].
  replace (h + 2 * 1 - 3) with (h - 1) by lia.
  replace (wd + 2 * 1 - 3) with (wd - 1) by lia.
  reflexivity.
Qed.

Lemma conv1x1_shape (w : Init) (i p st b h wd : nat) :
  0 < st -> 1 <= h -> 1 <= wd ->
  conv_out_shape (set_conv_weight w (conv1x1 i p st)) [b; i; h; wd]
  = Some [b; p; strided st h; strided st wd].
Proof.
  intros Hst Hh Hw. unfold conv_out_shape, conv_out_size, strided.
  cbn [set_conv_weight conv1x1 in_channels out_channels kernel_size
       conv_stride conv_padding].
  rewrite Nat.eqb_refl.
  replace (0 <? st) with true by (symmetry; now apply Nat.ltb_lt).
  replace (1 <=? h + 2 * 0) with true by (symmetry; apply Nat.leb_le; lia).
  replace (1 <=? wd + 2 * 0) with true by (symmetry; apply Nat.leb_le; lia).
  cbn [andb].
  replace (h + 2 * 0 - 1) with (h - 1) by lia.
  replace (wd + 2 * 0 - 1) with (wd - 1) by lia.
  reflexivity.
Qed.

Ltac shape_step :=
  first
    [ rewrite add_bias_shape by (simpl; lia)
    | rewrite mul_scale_shape by (simpl; lia)
    | rewrite conv3x3_shape by (auto using strided_pos; lia)
    | rewrite conv1x1_shape by (auto using strided_pos; lia)
    | rewrite broadcast_into_refl
    | rewrite strided_one by (auto using strided_pos; lia)
    | progress cbn [conv2d iadd leaky_relu shape_runtime obind obind2] ].

(** A block built by [_make_layer], after its visit, maps a feature map
    of its input channels to one of its output channels, the spatial
    sizes divided by its stride. *)
Lemma visited_block_shape L name i p st ds b h w :
  0 < st -> 1 <= h -> 1 <= w ->
  ds = Some (conv1x1 i p st) \/ (ds = None /\ st = 1 /\ i = p) ->
  FixupBasicBlock_forward
    (visit_block L name (FixupBasicBlock_init i p st ds))
    (Some [b; i; h; w])
  = Some [b; p; strided st h; strided st w].
Proof.
  intros Hst Hh Hw Hds.
  unfold FixupBasicBlock_forward, relu, visit_block, init_block.
  cbn [FixupBasicBlock_init bias1a conv1 bias1b bias2a conv2 scale bias2b
       downsample].
  destruct Hds as [-> | (-> & -> & ->)].
  - repeat shape_step. reflexivity.
  - repeat shape_step. reflexivity.
Qed.

Lemma visited_tail_shape L prefix p n i b h w :
  1 <= h -> 1 <= w ->
  Sequential_forward
    (visit_sequential_from L prefix i
       (repeat (FixupBasicBlock_init p p 1 None) n))
    (Some [b; p; h; w])
  = Some [b; p; h; w].
Proof.
  intros Hh Hw. revert i. unfold Sequential_forward.
  induction n as [|n IH]; intros i; [reflexivity|].
  cbn [repeat visit_sequential_from fold_left].
  rewrite visited_block_shape by (auto; lia).
  rewrite !strided_one by lia. apply IH.
Qed.

(** A stage as [_make_layer] builds it, after its visit. *)
Lemma visited_stage_shape L prefix i p st ds n b h w :
  0 < st -> 1 <= h -> 1 <= w ->
  ds = Some (conv1x1 i p st) \/ (ds = None /\ st = 1 /\ i = p) ->
  Sequential_forward
    (visit_sequential L prefix
       (FixupBasicBlock_init i p st ds
        :: repeat (FixupBasicBlock_init p p 1 None) n))
    (Some [b; i; h; w])
  = Some [b; p; strided st h; strided st w].
Proof.
  intros Hst Hh Hw Hds. unfold visit_sequential.
  cbn [visit_sequential_from]. unfold Sequential_forward.
  cbn [fold_left].
  rewrite visited_block_shape by auto.
  apply visited_tail_shape; apply strided_pos.
Qed.

(** What a constructed network feeds its classifier, on shapes. *)
Lemma constructed_features_shape layers num_classes net b h w :
  FixupResNet_init layers num_classes = Some net ->
  1 <= b -> 1 <= h -> 1 <= w ->
  features net (Some [b; 3; h; w]) = Some [b; 512].
Proof.
  intros Hc Hb Hh Hw.
  destruct (FixupResNet_init_inv _ _ _ Hc) as (net0 & Ha & _ & _ & ->).
  destruct layers as [|l0 [|l1 [|l2 [|l3 rest]]]]; try discriminate.
  injection Ha as <-.
  unfold features, init_loop, relu.
  cbn [num_layers net_conv1 bias1 layer1 layer2 layer3 layer4 bias2 fc].
  change (mkConv2d 3 64 3 1 1 DefaultInit)
    with (set_conv_weight DefaultInit (conv3x3 3 64 1)).
  repeat shape_step.
  rewrite (visited_stage_shape _ _ 64 64 1) by (auto; lia).
  rewrite !strided_one by lia.
  rewrite (visited_stage_shape _ _ 64 128 2) by (auto; lia).
  rewrite (visited_stage_shape _ _ 128 256 2)
    by (auto using strided_pos; lia).
  rewrite (visited_stage_shape _ _ 256 512 2)
    by (auto using strided_pos; lia).
  set (h4 := strided 2 (strided 2 (strided 2 h))).
  set (w4 := strided 2 (strided 2 (strided 2 w))).
  assert (Hh4 : 1 <= h4) by apply strided_pos.
  assert (Hw4 : 1 <= w4) by apply strided_pos.
  cbn [adaptive_avg_pool view_rows shape_runtime obind pool_shape].
  replace (0 <? h4) with true by (symmetry; now apply Nat.ltb_lt).
  replace (0 <? w4) with true by (symmetry; now apply Nat.ltb_lt).
  cbn [andb obind view_rows_shape].
  replace (b =? 0) with false by (symmetry; apply Nat.eqb_neq; lia).
  reflexivity.
Qed.

(** The forward pass of a constructed network on shapes. *)
Lemma constructed_forward_shape layers num_classes net b h w :
  FixupResNet_init layers num_classes = Some net ->
  1 <= b -> 1 <= h -> 1 <= w ->
  FixupResNet_forward net (Some [b; 3; h; w]) = Some [b; num_classes].
Proof.
  intros Hc Hb Hh Hw. unfold FixupResNet_forward.
  rewrite (constructed_features_shape _ _ _ _ _ _ Hc Hb Hh Hw).
  destruct (constructed_head _ _ _ Hc) as (_ & -> & ->).
  rewrite add_bias_shape by (simpl; lia).
  reflexivity.
Qed.

(** C9: a Fixup-ResNet-18 maps an input of shape (B, 3, H, W), with a
    non-empty batch and at least one row and one column, to a tensor of
    shape (B, num_classes). *)
Theorem resnet18_output_shape num_classes net b h w :
  FixupResNet18 num_classes = Some net ->
  1 <= b -> 1 <= h -> 1 <= w ->
  FixupResNet_forward net (Some [b; 3; h; w]) = Some [b; num_classes].
Proof.
  unfold FixupResNet18. apply constructed_forward_shape.
Qed.

Lemma resnet18_output_shape_witness :
  exists net,
    FixupResNet18 10 = Some net
    /\ FixupResNet_forward net (Some [4; 3; 32; 32]) = Some [4; 10].
Proof.
  assert (Hc : exists net, FixupResNet18 10 = Some net)
    by (eexists; reflexivity).
  destruct Hc as [net Hc]. exists net. split; [exact Hc|].
  apply (resnet18_output_shape 10 net 4 32 32 Hc); lia.
Defined.

(** ** Real-valued tensors carry the shapes of the shape runtime *)

Section Values.
Variable K : Kernels.

Local Abbreviation RV := (value_runtime K).
Local Abbreviation RS := shape_runtime.

Lemma shape_of_add (a b : option Tensor) :
  shape_of (@add _ RV a b) = @add _ RS (shape_of a) (shape_of b).
Proof.
  destruct a as [a|], b as [b|]; try reflexivity.
  cbn [add value_runtime shape_runtime obind2 shape_of option_map].
  unfold elementwise. now destruct (broadcast (tshape a) (tshape b)).
Qed.

Lemma shape_of_mul (a b : option Tensor) :
  shape_of (@mul _ RV a b) = @mul _ RS (shape_of a) (shape_of b).
Proof.
  destruct a as [a|], b as [b|]; try reflexivity.
  cbn [mul value_runtime shape_runtime obind2 shape_of option_map].
  unfold elementwise. now destruct (broadcast (tshape a) (tshape b)).
Qed.

Lemma shape_of_iadd (a b : option Tensor) :
  shape_of (@iadd _ RV a b) = @iadd _ RS (shape_of a) (shape_of b).
Proof.
  destruct a as [a|], b as [b|]; try reflexivity.
  cbn [iadd value_runtime shape_runtime obind2 shape_of option_map].
  unfold elementwise_into.
  now destruct (broadcast_into (tshape a) (tshape b)).
Qed.

Lemma shape_of_param (l : Linear) :
  shape_of (@param _ RV l) = @param _ RS l.
Proof. reflexivity. Qed.

Lemma shape_of_conv2d (c : Conv2d) (a : option Tensor) :
  shape_of (@conv2d _ RV c a) = @conv2d _ RS c (shape_of a).
Proof.
  destruct a as [a|]; [|reflexivity].
  cbn [conv2d value_runtime shape_runtime obind shape_of option_map].
  unfold apply_conv2d. now destruct (conv_out_shape c (tshape a)).
Qed.

Lemma shape_of_leaky_relu (slope : R) (a : option Tensor) :
  shape_of (@leaky_relu _ RV slope a) = @leaky_relu _ RS slope (shape_of a).
Proof. now destruct a. Qed.

Lemma shape_of_pool (a : option Tensor) :
  shape_of (@adaptive_avg_pool _ RV a)
  = @adaptive_avg_pool _ RS (shape_of a).
Proof.
  destruct a as [a|]; [|reflexivity].
  cbn [adaptive_avg_pool value_runtime shape_runtime obind shape_of
       option_map].
  unfold apply_pool. now destruct (pool_shape (tshape a)).
Qed.

Lemma shape_of_view_rows (a : option Tensor) :
  shape_of (@view_rows _ RV a) = @view_rows _ RS (shape_of a).
Proof.
  destruct a as [a|]; [|reflexivity].
  cbn [view_rows value_runtime shape_runtime obind shape_of option_map].
  unfold apply_view_rows. now destruct (view_rows_shape (tshape a)).
Qed.

Lemma shape_of_linear (l : Linear) (a : option Tensor) :
  shape_of (@linear _ RV l a) = @linear _ RS l (shape_of a).
Proof.
  destruct a as [a|]; [|reflexivity].
  cbn [linear value_runtime shape_runtime obind shape_of option_map].
  unfold apply_linear. now destruct (linear_shape l (tshape a)).
Qed.

Lemma shape_of_block (m : FixupBasicBlock) (x : option Tensor) :
  shape_of (@FixupBasicBlock_forward _ RV m x)
  = @FixupBasicBlock_forward _ RS m (shape_of x).
Proof.
  unfold FixupBasicBlock_forward, relu.
  destruct (downsample m);
    now rewrite ?shape_of_leaky_relu, ?shape_of_iadd, ?shape_of_add,
      ?shape_of_mul, ?shape_of_conv2d, ?shape_of_add, ?shape_of_leaky_relu,
      ?shape_of_add, ?shape_of_conv2d, ?shape_of_add, ?shape_of_param.
Qed.

Lemma shape_of_sequential (l : list FixupBasicBlock) (x : option Tensor) :
  shape_of (@Sequential_forward _ RV l x)
  = @Sequential_forward _ RS l (shape_of x).
Proof.
  unfold Sequential_forward. revert x.
  induction l as [|m l IH]; intros x; [reflexivity|].
  cbn [fold_left]. now rewrite IH, shape_of_block.
Qed.

Lemma shape_of_features (net : FixupResNet) (x : option Tensor) :
  shape_of (@features _ RV net x) = @features _ RS net (shape_of x).
Proof.
  unfold features, relu.
  now rewrite shape_of_view_rows, shape_of_pool, !shape_of_sequential,
    shape_of_leaky_relu, shape_of_add, shape_of_conv2d, shape_of_param.
Qed.

(** The real-valued forward pass has the shape the shape runtime
    computes. *)
Lemma shape_of_forward (net : FixupResNet) (x : option Tensor) :
  shape_of (@FixupResNet_forward _ RV net x)
  = @FixupResNet_forward _ RS net (shape_of x).
Proof.
  unfold FixupResNet_forward.
  now rewrite shape_of_linear, shape_of_add, shape_of_features,
    shape_of_param.
Qed.

End Values.

(** ** The classifier of a constructed network *)

Lemma nth_repeat_zero (i m : nat) : nth i (repeat 0%R m) 0%R = 0%R.
Proof.
  revert i. induction m as [|m IH]; intros [|i]; simpl; auto.
Qed.

Lemma sum_zero {A : Type} (f : A -> R) (l : list A) :
  (forall a, f a = 0%R) -> fold_right Rplus 0%R (map f l) = 0%R.
Proof.
  intros Hf. induction l as [|a l IH]; simpl; [reflexivity|].
  rewrite Hf, IH. lra.
Qed.

Lemma dot_zero_weight (n m : nat) (x : list R) (xo wo : nat) :
  dot n x (repeat 0%R m) xo wo = 0%R.
Proof.
  unfold dot. apply sum_zero. intros k.
  rewrite nth_repeat_zero. lra.
Qed.

Lemma flat_map_repeat {A : Type} (c : R) (n : nat) (l : list A) :
  flat_map (fun _ => repeat c n) l = repeat c (List.length l * n).
Proof.
  induction l as [|a l IH]; simpl; [reflexivity|].
  now rewrite IH, repeat_app.
Qed.

(** A linear layer with zero weight and zero bias returns zeros. *)
Lemma linear_data_zero (n_in n_out m k rows : nat) (x : list R) :
  linear_data n_in n_out (repeat 0%R m) (Some (repeat 0%R k)) rows x
  = repeat 0%R (rows * n_out).
Proof.
  unfold linear_data.
  rewrite (flat_map_ext _ (fun _ => repeat 0%R n_out)).
  - now rewrite flat_map_repeat, length_seq.
  - intros r. rewrite (map_ext _ (fun _ => 0%R)).
    + now rewrite map_const, length_seq.
    + intros j. rewrite dot_zero_weight, nth_repeat_zero. lra.
Qed.

(** C10: the classifier of a constructed network has zero weight and
    zero bias, and the forward pass on a real-valued input of shape
    (B, 3, H, W), whatever the kernels compute, returns the all-zero
    tensor of shape (B, num_classes). *)
Theorem constructed_logits_zero (K : Kernels) layers num_classes net x
    b h w :
  FixupResNet_init layers num_classes = Some net ->
  tshape x = [b; 3; h; w] ->
  1 <= b -> 1 <= h -> 1 <= w ->
  weight (fc net) = ConstantInit 0
  /\ bias (fc net) = Some (ConstantInit 0)
  /\ @FixupResNet_forward _ (value_runtime K) net (Some x)
     = Some (zeros [b; num_classes]).
Proof.
  intros Hc Hx Hb Hh Hw.
  destruct (classifier_zeroed _ _ _ Hc) as (Hfw & Hfb & Hfi & Hfo).
  repeat split; try assumption.
  unfold FixupResNet_forward.
  pose proof (shape_of_features K net (Some x)) as Hs.
  change (shape_of (Some x)) with (Some (tshape x)) in Hs.
  rewrite Hx in Hs.
  apply (fun E => eq_trans E
           (constructed_features_shape _ _ _ _ _ _ Hc Hb Hh Hw)) in Hs.
  destruct (@features _ (value_runtime K) net (Some x)) as [f|];
    [|discriminate].
  injection Hs as Hs.
  destruct (constructed_head _ _ _ Hc) as (_ & Hb2 & _).
  cbn [add param value_runtime obind2]. unfold elementwise.
  cbn [tshape]. rewrite Hs, Hb2, param_shape_init_linear.
  change (param_shape (nn_Linear 1 1 false)) with [1; 1].
  rewrite broadcast_scalar by (simpl; lia).
  cbn [linear value_runtime obind]. unfold apply_linear.
  cbn [tshape tdata]. unfold linear_shape.
  rewrite Hfw, Hfb, Hfi, Hfo. cbn [rev app Nat.eqb option_map realise].
  rewrite linear_data_zero.
  unfold zeros. do 2 f_equal. f_equal. simpl. lia.
Qed.

Lemma constructed_logits_zero_witness :
  exists net,
    FixupResNet18 10 = Some net
    /\ @FixupResNet_forward _ (value_runtime zero_kernels) net
         (Some (zeros [2; 3; 32; 32]))
       = Some (zeros [2; 10]).
Proof.
  assert (Hc : exists net, FixupResNet18 10 = Some net)
    by (eexists; reflexivity).
  destruct Hc as [net Hc]. exists net. split; [exact Hc|].
  apply (constructed_logits_zero zero_kernels [2; 2; 2; 2]%Z 10 net
           (zeros [2; 3; 32; 32]) 2 32 32 Hc eq_refl); lia.
Defined.

End FixupSpec.

(** * Properties of the recurrent models *)

Module LMSpec.

Import LM.

Unset Implicit Arguments.

(** ** The transforms of a Mogrifier cell *)

Lemma fold_left_extend {A B : Type} (c : B -> bool) (a b : A) (l : list B)
    (acc : list A) :
  fold_left (fun ml i => if c i then ml ++ [a] else ml ++ [b]) l acc
  = acc ++ map (fun i => if c i then a else b) l.
Proof.
  revert acc. induction l as [|i l IH]; intros acc; simpl.
  - now rewrite app_nil_r.
  - rewrite IH. destruct (c i); now rewrite <- app_assoc.
Qed.

Lemma range_length (lo hi : Z) :
  List.length (range lo hi) = Z.to_nat (hi - lo).
Proof. unfold range. now rewrite length_map, length_seq. Qed.

Lemma range_nth (lo hi : Z) (j : nat) :
  j < Z.to_nat (hi - lo) ->
  nth_error (range lo hi) j = Some (lo + Z.of_nat j)%Z.
Proof.
  intros Hj. unfold range.
  rewrite nth_error_map, nth_error_seq.
  replace (j <? Z.to_nat (hi - lo)) with true
    by (symmetry; now apply Nat.ltb_lt).
  reflexivity.
Qed.

Lemma range_nth_inv (lo hi : Z) (j : nat) (z : Z) :
  nth_error (range lo hi) j = Some z -> z = (lo + Z.of_nat j)%Z.
Proof.
  intros Hz.
  assert (Hj : j < Z.to_nat (hi - lo))
    by (rewrite <- range_length; apply nth_error_Some; congruence).
  rewrite (range_nth lo hi j Hj) in Hz. congruence.
Qed.

Lemma even_of_nat (n : nat) : Z.even (Z.of_nat n) = Nat.even n.
Proof.
  induction n as [|n IH].
  - reflexivity.
  - rewrite Nat2Z.inj_succ, Z.even_succ, Nat.even_succ.
    rewrite <- Z.negb_even, <- Nat.negb_even. now rewrite IH.
Qed.

Lemma mod2_even (n : nat) : (Z.of_nat n mod 2 =? 0)%Z = Nat.even n.
Proof.
  rewrite Zmod_even, even_of_nat. now destruct (Nat.even n).
Qed.

Section Cells.
Context {W T : Type} {RT : Runtime W T}.

(** The list [__init__] builds: one transform to start with, then one per
    index of [range(1, mogrify_steps)]. *)
Lemma mogrifier_list_init (input_size hidden_size : nat) (steps : Z)
    (k : nat) :
  mogrifier_list (MogrifierLSTMCell_init input_size hidden_size steps k)
  = if (input_size <? k) || (hidden_size <? k)
    then full_rank hidden_size input_size
         :: map (fun i => if (i mod 2 =? 0)%Z
                          then full_rank hidden_size input_size
                          else full_rank input_size hidden_size)
                (range 1 steps)
    else low_rank hidden_size k input_size
         :: map (fun i => if (i mod 2 =? 0)%Z
                          then low_rank hidden_size k input_size
                          else low_rank input_size k hidden_size)
                (range 1 steps).
Proof.
  unfold MogrifierLSTMCell_init, full_rank, low_rank.
  cbn [mogrifier_list].
  destruct ((input_size <? k) || (hidden_size <? k));
    now rewrite fold_left_extend.
Qed.

Lemma mogrifier_list_length (input_size hidden_size : nat) (steps : Z)
    (k : nat) :
  List.length
    (mogrifier_list (MogrifierLSTMCell_init input_size hidden_size steps k))
  = S (Z.to_nat (steps - 1)).
Proof.
  rewrite mogrifier_list_init.
  destruct ((input_size <? k) || (hidden_size <? k)); cbn [List.length];
    now rewrite length_map, range_length.
Qed.

(** C3, as the code has it: the transform at position [i] maps
    hidden-size to input-size vectors when [i] is even and input-size to
    hidden-size vectors when [i] is odd; it is one full-rank linear map
    when the input size or the hidden size is below [k], and two linear
    maps through the inner dimension [k], the first without a bias, when
    both sizes are at least [k]. *)
Theorem mogrifier_transforms (input_size hidden_size : nat) (steps : Z)
    (k i : nat) (m : Layer) :
  nth_error
    (mogrifier_list (MogrifierLSTMCell_init input_size hidden_size steps k))
    i = Some m ->
  let src := if Nat.even i then hidden_size else input_size in
  let dst := if Nat.even i then input_size else hidden_size in
  m = if (input_size <? k) || (hidden_size <? k)
      then full_rank src dst
      else low_rank src k dst.
Proof.
  intros Hm src dst. subst src dst.
  rewrite mogrifier_list_init in Hm.
  destruct ((input_size <? k) || (hidden_size <? k));
    (destruct i as [|j];
     [ injection Hm as <-; reflexivity
     | cbn [nth_error] in Hm;
       rewrite nth_error_map in Hm;
       destruct (nth_error (range 1 steps) j) as [z|] eqn:Hz;
       [|discriminate];
       apply range_nth_inv in Hz;
       replace (1 + Z.of_nat j)%Z with (Z.of_nat (S j)) in Hz by lia;
       injection Hm as <-;
       rewrite Hz, mod2_even; destruct (Nat.even (S j)); reflexivity ]).
Qed.

(** ** The gating loop *)

Lemma range_of_nat (hi : Z) : range 0 hi = range 0 (Z.of_nat (Z.to_nat hi)).
Proof. unfold range. do 2 f_equal. lia. Qed.

Lemma range_snoc (n : nat) :
  range 0 (Z.of_nat (S n)) = range 0 (Z.of_nat n) ++ [Z.of_nat n].
Proof.
  unfold range.
  replace (Z.to_nat (Z.of_nat (S n) - 0)) with (S n) by lia.
  replace (Z.to_nat (Z.of_nat n - 0)) with n by lia.
  now rewrite seq_S, map_app.
Qed.

Lemma Rounds_functional (self : MogrifierLSTMCell) n st r1 r2 :
  Rounds self n st r1 -> Rounds self n st r2 -> r1 = r2.
Proof.
  intros H1. revert r2.
  induction H1 as [st | i st x h m H1 IH Hm Hp | i st x h m H1 IH Hm Hp];
    intros r2 H2; inversion H2; subst; try reflexivity;
    match goal with
    | [ H : Rounds _ _ _ (?a, ?b) |- _ ] =>
        specialize (IH _ H); injection IH as -> ->
    end;
    congruence.
Qed.

(** The loop of [mogrify], stopped after [n] passes. *)
Lemma mogrify_loop (self : MogrifierLSTMCell) (n : nat) (x h : T) :
  n <= List.length (mogrifier_list self) ->
  exists x' h',
    fold_left (mogrify_round self) (range 0 (Z.of_nat n)) (Some (x, h))
    = Some (x', h')
    /\ Rounds self n (x, h) (x', h').
Proof.
  induction n as [|n IH]; intros Hn.
  - exists x, h. split; [reflexivity | constructor].
  - destruct IH as (x' & h' & Hf & HR); [lia|].
    rewrite range_snoc, fold_left_app, Hf. cbn [fold_left mogrify_round].
    rewrite Nat2Z.id.
    destruct (nth_error (mogrifier_list self) n) as [m|] eqn:Hm.
    + destruct ((Z.of_nat n + 1) mod 2 =? 0)%Z eqn:Hp.
      * exists x', (gate n m x' h'). split; [reflexivity|].
        apply Rounds_gate_h; auto. now apply Z.eqb_eq.
      * exists (gate n m h' x'), h'. split; [reflexivity|].
        apply Rounds_gate_x; auto. now apply Z.eqb_neq.
    + apply nth_error_None in Hm. lia.
Qed.

(** C4: in a constructed cell [mogrify] returns, after exactly
    [mogrify_steps] rounds indexed from 0: a round with [(i+1) % 2 == 0]
    replaces [h] by [2 * sigmoid(transform_i(x)) * h], any other round
    replaces [x] by [2 * sigmoid(transform_i(h)) * x]; the first round
    gates [x] using [h]; and [forward] hands the cell state [c] to the
    LSTM step as it received it. *)
Theorem mogrify_alternates (input_size hidden_size : nat) (steps : Z)
    (k : nat) (x h c : T) :
  let self := MogrifierLSTMCell_init input_size hidden_size steps k in
  exists x' h',
    mogrify self x h = Some (x', h')
    /\ Rounds self (Z.to_nat steps) (x, h) (x', h')
    /\ (forall r, Rounds self (Z.to_nat steps) (x, h) r -> r = (x', h'))
    /\ (exists m, nth_error (mogrifier_list self) 0 = Some m
                  /\ Rounds self 1 (x, h) (gate 0 m h x, h))
    /\ MogrifierLSTMCell_forward self x (h, c)
       = Some (LSTMCell_forward (lstm self) x' (h', c)).
Proof.
  intros self.
  assert (Hlen : Z.to_nat steps <= List.length (mogrifier_list self)).
  { unfold self. rewrite mogrifier_list_length. lia. }
  destruct (mogrify_loop self (Z.to_nat steps) x h Hlen)
    as (x' & h' & Hf & HR).
  assert (Hm : mogrify self x h = Some (x', h')).
  { unfold mogrify. rewrite range_of_nat.
    replace (mogrify_steps self) with steps by reflexivity. exact Hf. }
  exists x', h'. repeat split; auto.
  - intros r Hr. apply (Rounds_functional self _ _ _ _ Hr HR).
  - destruct (mogrifier_list self) as [|m l] eqn:El;
      [simpl in Hlen; unfold self in El;
       pose proof (mogrifier_list_length input_size hidden_size steps k)
         as Hl; rewrite El in Hl; discriminate|].
    exists m. split; [reflexivity|].
    apply Rounds_gate_x; [constructor | now rewrite El | discriminate].
  - unfold MogrifierLSTMCell_forward. now rewrite Hm.
Qed.

(** C8: with [mogrify_steps = 0] the forward step of the cell is the
    step of its LSTM cell on the same input and state. *)
Theorem mogrifier_without_steps (self : MogrifierLSTMCell) (x h c : T) :
  mogrify_steps self = 0%Z ->
  MogrifierLSTMCell_forward self x (h, c)
  = Some (LSTMCell_forward (lstm self) x (h, c)).
Proof.
  intros H0. unfold MogrifierLSTMCell_forward, mogrify.
  rewrite H0. reflexivity.
Qed.

(** ** The initial state of the sequence drivers *)






(** ** The conversion to the fused model *)

Lemma convert_result (model : LanguageModel) :
  0 < lin_in (logits model) ->
  convert_to_cudnn_lstm model
  = Some {| c_emb_vectors := emb_vectors model;
            c_logits := logits model;
            c_lstm := mkLSTM (embedding_dim (emb_vectors model))
                             (lin_in (logits model)) 2
                             (converted_parameters model);
            c_num_layers := 2;
            c_training := true |}.
Proof.
  intros Hh. unfold convert_to_cudnn_lstm, CudnnLanguageModel_init, nn_LSTM.
  destruct (lin_in (logits model)) as [|h]; [lia|]. reflexivity.
Qed.

Lemma map_Dropout_eval (l : list T) : map (Dropout false) l = l.
Proof. change (Dropout false) with (fun x : T => x). apply map_id. Qed.


End Cells.

Lemma mogrifier_transforms_witness :
  exists m,
    nth_error
      (mogrifier_list
         (MogrifierLSTMCell_init (RT := shape_runtime) 100 120 3 90)) 1
    = Some m
    /\ m = low_rank 100 90 120.
Proof.
  eexists. split; [reflexivity|].
  apply (mogrifier_transforms (RT := shape_runtime) 100 120 3 90 1 _ eq_refl).
Defined.

(** C3 as the specification words it fails both ways: with both sizes
    below the threshold the transform is a single linear map, with both
    sizes above it the transform is factored. *)
Lemma mogrifier_below_threshold_not_factored :
  ((10 <? default_k) && (20 <? default_k) = true
   /\ nth_error
        (mogrifier_list
           (MogrifierLSTMCell_init (RT := shape_runtime) 10 20 1 default_k))
        0
      = Some (ALinear (nn_Linear 20 10 true)))
  /\ ((100 <? default_k) || (120 <? default_k) = false
      /\ nth_error
           (mogrifier_list
              (MogrifierLSTMCell_init (RT := shape_runtime) 100 120 1
                                      default_k)) 0
         = Some (Sequential [nn_Linear 120 90 false; nn_Linear 90 100 true])).
Proof. repeat split. Qed.

Lemma mogrifier_without_steps_witness :
  let self := MogrifierLSTMCell_init (RT := shape_runtime) 3 4 0 default_k in
  MogrifierLSTMCell_forward self (Some [2; 3]) (Some [2; 4], Some [2; 4])
  = Some (Some [2; 4], Some [2; 4]).
Proof.
  intros self.
  rewrite (mogrifier_without_steps self (Some [2; 3]) (Some [2; 4])
             (Some [2; 4]) eq_refl).
  reflexivity.
Defined.

(** ** The shape runtime at concrete models *)

Lemma shape_runtime_zero_slices : zero_slices (RT := shape_runtime).
Proof.
  intros n b h l Hl.
  cbn [select_layer zeros shape_runtime Fixup.obind select_layer_shape].
  apply Nat.ltb_lt in Hl. now rewrite Hl.
Qed.

(** On a batch of two sequences of three tokens the two-cell model
    returns a tensor of shape (2, 3, 5), the converted model one of shape
    (6, 5). *)
Lemma fused_output_shape_differs :
  let model := LanguageModel_init (RT := shape_runtime) 5 3 4 in
  let inputs := mkTokens 2 3 [0; 1; 2; 3; 4; 0] in
  exists cm y y',
    convert_to_cudnn_lstm model = Some cm
    /\ LanguageModel_forward (LanguageModel_eval model) inputs None = Some y
    /\ CudnnLanguageModel_forward (CudnnLanguageModel_eval cm) inputs None
       = Returns y'
    /\ y = Some [2; 3; 5] /\ y' = Some [6; 5] /\ y <> y'.
Proof.
  intros model inputs. do 3 eexists.
  split; [reflexivity|]. split; [reflexivity|]. split; [reflexivity|].
  split; [reflexivity|]. split; [reflexivity|]. discriminate.
Qed.

(** ** The real-valued runtime at a small model *)

Local Open Scope R_scope.







(** ** The real-valued runtime slices zero tensors into zero tensors *)







End LMSpec.

(** * Further properties of the Fixup network *)

Module FixupMore.

Import Fixup FixupSpec.

Unset Implicit Arguments.

(** ** Construction *)

Lemma make_layer_length inplanes planes blocks st :
  List.length (fst (_make_layer inplanes planes blocks st))
  = Z.to_nat (Z.max 1 blocks).
Proof.
  unfold _make_layer. cbn [fst List.length]. rewrite repeat_length. lia.
Qed.

Lemma constructed_stages l0 l1 l2 l3 rest num_classes net :
  FixupResNet_init (l0 :: l1 :: l2 :: l3 :: rest) num_classes = Some net ->
  let L := total (l0 :: l1 :: l2 :: l3 :: rest) in
  num_layers net = L
  /\ layer1 net
     = visit_sequential L "layer1" (fst (_make_layer 64 64 l0 1))
  /\ layer2 net
     = visit_sequential L "layer2" (fst (_make_layer 64 128 l1 2))
  /\ layer3 net
     = visit_sequential L "layer3" (fst (_make_layer 128 256 l2 2))
  /\ layer4 net
     = visit_sequential L "layer4" (fst (_make_layer 256 512 l3 2)).
Proof.
  intros Hc L.
  destruct (FixupResNet_init_inv _ _ _ Hc) as (net0 & Ha & _ & _ & ->).
  injection Ha as <-. repeat split.
Qed.

(** Stage [i] holds [max(1, layers[i])] blocks: [_make_layer] always
    builds the first block.  With exactly four counts, all at least one,
    the depth [num_layers] used by the initialisation is the number of
    blocks. *)
Theorem stage_block_counts l0 l1 l2 l3 rest num_classes net :
  FixupResNet_init (l0 :: l1 :: l2 :: l3 :: rest) num_classes = Some net ->
  List.length (layer1 net) = Z.to_nat (Z.max 1 l0)
  /\ List.length (layer2 net) = Z.to_nat (Z.max 1 l1)
  /\ List.length (layer3 net) = Z.to_nat (Z.max 1 l2)
  /\ List.length (layer4 net) = Z.to_nat (Z.max 1 l3)
  /\ ((1 <= l0)%Z -> (1 <= l1)%Z -> (1 <= l2)%Z -> (1 <= l3)%Z ->
      rest = [] ->
      Z.of_nat (List.length (blocks net)) = num_layers net).
Proof.
  intros Hc.
  destruct (constructed_stages _ _ _ _ _ _ _ Hc) as (HL & H1 & H2 & H3 & H4).
  assert (E1 : List.length (layer1 net) = Z.to_nat (Z.max 1 l0))
    by (rewrite H1, visit_sequential_length; apply make_layer_length).
  assert (E2 : List.length (layer2 net) = Z.to_nat (Z.max 1 l1))
    by (rewrite H2, visit_sequential_length; apply make_layer_length).
  assert (E3 : List.length (layer3 net) = Z.to_nat (Z.max 1 l2))
    by (rewrite H3, visit_sequential_length; apply make_layer_length).
  assert (E4 : List.length (layer4 net) = Z.to_nat (Z.max 1 l3))
    by (rewrite H4, visit_sequential_length; apply make_layer_length).
  repeat split; try assumption.
  intros G0 G1 G2 G3 ->. rewrite HL. unfold blocks, total.
  rewrite !length_app, E1, E2, E3, E4. cbn [fold_right]. lia.
Qed.

Lemma stage_block_counts_witness :
  exists net,
    FixupResNet_init [3; 4; 6; 3]%Z 10 = Some net
    /\ List.length (layer3 net) = 6
    /\ Z.of_nat (List.length (blocks net)) = num_layers net.
Proof.
  assert (Hc : exists net, FixupResNet_init [3; 4; 6; 3]%Z 10 = Some net)
    by (eexists; reflexivity).
  destruct Hc as [net Hc]. exists net. split; [exact Hc|].
  destruct (stage_block_counts 3 4 6 3 [] 10 net Hc)
    as (_ & _ & H3 & _ & Hall).
  split; [exact H3 | apply Hall; (lia || reflexivity)].
Defined.

(** A zero count still builds one block, which the depth does not
    count. *)
Lemma zero_count_still_one_block :
  exists net,
    FixupResNet_init [0; 1; 1; 1]%Z 10 = Some net
    /\ List.length (blocks net) = 4 /\ num_layers net = 3%Z.
Proof.
  eexists. split; [reflexivity|]. split; reflexivity.
Qed.

(** ** Where the downsampling convolutions are *)

Lemma visited_plain L prefix c p n i :
  Forall plain_block
    (visit_sequential_from L prefix i
       (repeat (FixupBasicBlock_init c p 1 None) n)).
Proof.
  revert i. induction n as [|n IH]; intros i; cbn; constructor.
  - split; reflexivity.
  - apply IH.
Qed.

Lemma visited_downsampling_stage L prefix c_in c_out blocks :
  downsampling_stage c_in c_out
    (visit_sequential L prefix (fst (_make_layer c_in c_out blocks 2))).
Proof.
  unfold _make_layer, visit_sequential.
  cbn [fst visit_sequential_from Nat.eqb negb orb].
  do 3 eexists. split; [reflexivity|].
  split; [reflexivity|]. split; [reflexivity|].
  split; [reflexivity|].
  split; [cbn; unfold expansion; lia|].
  split; [reflexivity|]. split; [reflexivity|]. split; [reflexivity|].
  apply visited_plain.
Qed.

(** The first stage has no downsampling convolution; in each later stage
    the first block, and only it, has stride 2 and carries a 1x1
    convolution of stride 2 from the previous width to the stage's. *)
Theorem downsampling_only_at_stage_entry layers num_classes net :
  FixupResNet_init layers num_classes = Some net ->
  Forall plain_block (layer1 net)
  /\ downsampling_stage 64 128 (layer2 net)
  /\ downsampling_stage 128 256 (layer3 net)
  /\ downsampling_stage 256 512 (layer4 net).
Proof.
  intros Hc.
  destruct layers as [|l0 [|l1 [|l2 [|l3 rest]]]]; try discriminate.
  destruct (constructed_stages _ _ _ _ _ _ _ Hc)
    as (_ & -> & -> & -> & ->).
  split; [|split; [|split]].
  - unfold _make_layer, visit_sequential.
    cbn [fst visit_sequential_from]. constructor.
    + split; reflexivity.
    + apply visited_plain.
  - apply visited_downsampling_stage.
  - apply visited_downsampling_stage.
  - apply visited_downsampling_stage.
Qed.

Lemma downsampling_only_at_stage_entry_witness :
  exists net,
    FixupResNet18 10 = Some net
    /\ Forall plain_block (layer1 net)
    /\ downsampling_stage 256 512 (layer4 net).
Proof.
  assert (Hc : exists net, FixupResNet18 10 = Some net)
    by (eexists; reflexivity).
  destruct Hc as [net Hc]. exists net. split; [exact Hc|].
  destruct (downsampling_only_at_stage_entry [2; 2; 2; 2]%Z 10 net Hc)
    as (H1 & _ & _ & H4).
  split; assumption.
Defined.

(** The stem convolution is neither a block nor a linear layer: the
    initialisation loop leaves it as its constructor drew it. *)
Theorem stem_convolution_keeps_default layers num_classes net :
  FixupResNet_init layers num_classes = Some net ->
  net_conv1 net = mkConv2d 3 64 3 1 1 DefaultInit.
Proof.
  intros Hc.
  destruct (FixupResNet_init_inv _ _ _ Hc) as (net0 & Ha & _ & _ & ->).
  destruct layers as [|l0 [|l1 [|l2 [|l3 rest]]]]; try discriminate.
  injection Ha as <-. reflexivity.
Qed.

Lemma stem_convolution_keeps_default_witness :
  exists net,
    FixupResNet18 10 = Some net
    /\ conv_weight (net_conv1 net) = DefaultInit.
Proof.
  assert (Hc : exists net, FixupResNet18 10 = Some net)
    by (eexists; reflexivity).
  destruct Hc as [net Hc]. exists net. split; [exact Hc|].
  now rewrite (stem_convolution_keeps_default [2; 2; 2; 2]%Z 10 net Hc).
Defined.

(** Construction raises on fewer than four layer counts and on counts
    that sum to zero; it succeeds on four or more counts of positive
    sum. *)
Theorem construction_outcomes layers num_classes :
  (List.length layers < 4 -> FixupResNet_init layers num_classes = None)
  /\ (total layers = 0%Z -> FixupResNet_init layers num_classes = None)
  /\ (4 <= List.length layers -> (0 < total layers)%Z ->
      exists net, FixupResNet_init layers num_classes = Some net).
Proof.
  split; [|split].
  - intros Hl.
    destruct layers as [|l0 [|l1 [|l2 [|l3 rest]]]]; try reflexivity.
    simpl in Hl. lia.
  - intros H0. unfold FixupResNet_init.
    destruct layers as [|l0 [|l1 [|l2 [|l3 rest]]]]; try reflexivity.
    cbn [assemble _make_layer num_layers].
    change (fold_right Z.add 0%Z (l0 :: l1 :: l2 :: l3 :: rest))
      with (total (l0 :: l1 :: l2 :: l3 :: rest)).
    now rewrite H0.
  - intros Hl Hs. unfold FixupResNet_init.
    destruct layers as [|l0 [|l1 [|l2 [|l3 rest]]]];
      try (simpl in Hl; lia).
    cbn [assemble _make_layer num_layers].
    change (fold_right Z.add 0%Z (l0 :: l1 :: l2 :: l3 :: rest))
      with (total (l0 :: l1 :: l2 :: l3 :: rest)).
    apply Z.ltb_lt in Hs. rewrite Hs. eauto.
Qed.

Lemma construction_outcomes_witness :
  FixupResNet_init [2; 2; 2]%Z 10 = None
  /\ FixupResNet_init [0; 0; 0; 0]%Z 10 = None
  /\ exists net, FixupResNet_init [3; 4; 6; 3]%Z 10 = Some net.
Proof.
  split; [|split].
  - apply (proj1 (construction_outcomes [2; 2; 2]%Z 10)). simpl. lia.
  - apply (proj1 (proj2 (construction_outcomes [0; 0; 0; 0]%Z 10))).
    reflexivity.
  - apply (proj2 (proj2 (construction_outcomes [3; 4; 6; 3]%Z 10)));
      simpl; lia.
Defined.

(** ** Shapes through the network *)

(** Every constructed network, whatever its layer counts, maps an input
    of shape (B, 3, H, W) to logits of shape (B, num_classes). *)
Theorem constructed_output_shape layers num_classes net b h w :
  FixupResNet_init layers num_classes = Some net ->
  1 <= b -> 1 <= h -> 1 <= w ->
  FixupResNet_forward net (Some [b; 3; h; w]) = Some [b; num_classes].
Proof. apply constructed_forward_shape. Qed.

Lemma constructed_output_shape_witness :
  exists net,
    FixupResNet34 100 = Some net
    /\ FixupResNet_forward net (Some [2; 3; 17; 5]) = Some [2; 100].
Proof.
  assert (Hc : exists net, FixupResNet34 100 = Some net)
    by (eexists; reflexivity).
  destruct Hc as [net Hc]. exists net. split; [exact Hc|].
  apply (constructed_output_shape [3; 4; 6; 3]%Z 100 net 2 17 5 Hc); lia.
Defined.

Lemma strided_twice (n : nat) : strided 2 (strided 2 n) = strided 4 n.
Proof.
  unfold strided. rewrite Nat.add_sub.
  now rewrite Nat.Div0.div_div.
Qed.

Lemma strided_thrice (n : nat) :
  strided 2 (strided 2 (strided 2 n)) = (n - 1) / 8 + 1.
Proof.
  rewrite strided_twice. unfold strided. rewrite Nat.add_sub.
  now rewrite Nat.Div0.div_div.
Qed.

(** The four stages turn (B, 3, H, W) into (B, 512, ceil(H/8),
    ceil(W/8)): the first stage keeps the resolution and each of the
    three others halves it, rounding up. *)
Theorem stages_output_shape layers num_classes net b h w :
  FixupResNet_init layers num_classes = Some net ->
  1 <= h -> 1 <= w ->
  FixupResNet_stages net (Some [b; 3; h; w])
  = Some [b; 512; (h - 1) / 8 + 1; (w - 1) / 8 + 1].
Proof.
  intros Hc Hh Hw.
  destruct (FixupResNet_init_inv _ _ _ Hc) as (net0 & Ha & _ & _ & ->).
  destruct layers as [|l0 [|l1 [|l2 [|l3 rest]]]]; try discriminate.
  injection Ha as <-.
  unfold FixupResNet_stages, init_loop, relu.
  cbn [num_layers net_conv1 bias1 layer1 layer2 layer3 layer4 bias2 fc].
  change (mkConv2d 3 64 3 1 1 DefaultInit)
    with (set_conv_weight DefaultInit (conv3x3 3 64 1)).
  repeat shape_step.
  rewrite (visited_stage_shape _ _ 64 64 1) by (auto; lia).
  rewrite !strided_one by lia.
  rewrite (visited_stage_shape _ _ 64 128 2) by (auto; lia).
  rewrite (visited_stage_shape _ _ 128 256 2)
    by (auto using strided_pos; lia).
  rewrite (visited_stage_shape _ _ 256 512 2)
    by (auto using strided_pos; lia).
  now rewrite !strided_thrice.
Qed.

Lemma stages_output_shape_witness :
  exists net,
    FixupResNet18 10 = Some net
    /\ FixupResNet_stages net (Some [4; 3; 32; 33]) = Some [4; 512; 4; 5].
Proof.
  assert (Hc : exists net, FixupResNet18 10 = Some net)
    by (eexists; reflexivity).
  destruct Hc as [net Hc]. exists net. split; [exact Hc|].
  apply (stages_output_shape [2; 2; 2; 2]%Z 10 net 4 32 33 Hc); lia.
Defined.

(** An activation that could not be computed stays so through a stage. *)
Lemma sequential_of_failure (l : list FixupBasicBlock) :
  Sequential_forward l (None : option Shape) = None.
Proof.
  unfold Sequential_forward. induction l as [|m l IH]; [reflexivity|].
  cbn [fold_left].
  replace (FixupBasicBlock_forward m (None : option Shape)) with
    (None : option Shape); [exact IH|].
  unfold FixupBasicBlock_forward, relu. now destruct (downsample m).
Qed.

(** A convolution treats a single image as a batch does each of its
    images. *)
Lemma conv_single_image (c : Conv2d) (b i h w : nat) :
  conv_out_shape c [i; h; w]
  = option_map (@tl nat) (conv_out_shape c [b; i; h; w]).
Proof.
  unfold conv_out_shape.
  now destruct ((i =? in_channels c) && (0 <? conv_stride c)
                && (kernel_size c <=? h + 2 * conv_padding c)
                && (kernel_size c <=? w + 2 * conv_padding c)).
Qed.

Lemma conv3x3_shape_of (w : Init) (i p st : nat) (pre : list nat)
    (h wd : nat) :
  List.length pre <= 1 -> 0 < st -> 1 <= h -> 1 <= wd ->
  conv_out_shape (set_conv_weight w (conv3x3 i p st)) (pre ++ [i; h; wd])
  = Some (pre ++ [p; strided st h; strided st wd]).
Proof.
  intros Hp Hst Hh Hw.
  destruct pre as [|b [|b' pre]]; [| now apply conv3x3_shape
                                   | simpl in Hp; lia].
  cbn [app]. rewrite (conv_single_image _ 0).
  now rewrite conv3x3_shape.
Qed.

Lemma conv1x1_shape_of (w : Init) (i p st : nat) (pre : list nat)
    (h wd : nat) :
  List.length pre <= 1 -> 0 < st -> 1 <= h -> 1 <= wd ->
  conv_out_shape (set_conv_weight w (conv1x1 i p st)) (pre ++ [i; h; wd])
  = Some (pre ++ [p; strided st h; strided st wd]).
Proof.
  intros Hp Hst Hh Hw.
  destruct pre as [|b [|b' pre]]; [| now apply conv1x1_shape
                                   | simpl in Hp; lia].
  cbn [app]. rewrite (conv_single_image _ 0).
  now rewrite conv1x1_shape.
Qed.

Ltac shape_step_of Hp :=
  first
    [ rewrite add_bias_shape by (rewrite length_app; simpl; lia)
    | rewrite mul_scale_shape by (rewrite length_app; simpl; lia)
    | rewrite (conv3x3_shape_of _ _ _ _ _ _ _ Hp)
        by (auto using strided_pos; lia)
    | rewrite (conv1x1_shape_of _ _ _ _ _ _ _ Hp)
        by (auto using strided_pos; lia)
    | rewrite broadcast_into_refl
    | rewrite strided_one by (auto using strided_pos; lia)
    | progress cbn [conv2d iadd leaky_relu shape_runtime obind obind2] ].

(** The blocks and stages act on a single image (C, H, W) as on the images
    of a batch (B, C, H, W): [pre] is the batch dimension, if any. *)
Lemma visited_block_shape_of L name i p st ds pre h w :
  List.length pre <= 1 -> 0 < st -> 1 <= h -> 1 <= w ->
  ds = Some (conv1x1 i p st) \/ (ds = None /\ st = 1 /\ i = p) ->
  FixupBasicBlock_forward
    (visit_block L name (FixupBasicBlock_init i p st ds))
    (Some (pre ++ [i; h; w]))
  = Some (pre ++ [p; strided st h; strided st w]).
Proof.
  intros Hp Hst Hh Hw Hds.
  unfold FixupBasicBlock_forward, relu, visit_block, init_block.
  cbn [FixupBasicBlock_init bias1a conv1 bias1b bias2a conv2 scale bias2b
       downsample].
  destruct Hds as [-> | (-> & -> & ->)].
  - repeat shape_step_of Hp. reflexivity.
  - repeat shape_step_of Hp. reflexivity.
Qed.

Lemma visited_tail_shape_of L prefix p n i pre h w :
  List.length pre <= 1 -> 1 <= h -> 1 <= w ->
  Sequential_forward
    (visit_sequential_from L prefix i
       (repeat (FixupBasicBlock_init p p 1 None) n))
    (Some (pre ++ [p; h; w]))
  = Some (pre ++ [p; h; w]).
Proof.
  intros Hp Hh Hw. revert i. unfold Sequential_forward.
  induction n as [|n IH]; intros i; [reflexivity|].
  cbn [repeat visit_sequential_from fold_left].
  rewrite visited_block_shape_of by (auto; lia).
  rewrite !strided_one by lia. apply IH.
Qed.

Lemma visited_stage_shape_of L prefix i p st ds n pre h w :
  List.length pre <= 1 -> 0 < st -> 1 <= h -> 1 <= w ->
  ds = Some (conv1x1 i p st) \/ (ds = None /\ st = 1 /\ i = p) ->
  Sequential_forward
    (visit_sequential L prefix
       (FixupBasicBlock_init i p st ds
        :: repeat (FixupBasicBlock_init p p 1 None) n))
    (Some (pre ++ [i; h; w]))
  = Some (pre ++ [p; strided st h; strided st w]).
Proof.
  intros Hp Hst Hh Hw Hds. unfold visit_sequential.
  cbn [visit_sequential_from]. unfold Sequential_forward.
  cbn [fold_left].
  rewrite visited_block_shape_of by auto.
  apply visited_tail_shape_of; auto using strided_pos.
Qed.

Lemma constructed_stages_shape_of layers num_classes net pre h w :
  FixupResNet_init layers num_classes = Some net ->
  List.length pre <= 1 -> 1 <= h -> 1 <= w ->
  FixupResNet_stages net (Some (pre ++ [3; h; w]))
  = Some (pre ++ [512; strided 2 (strided 2 (strided 2 h));
                  strided 2 (strided 2 (strided 2 w))]).
Proof.
  intros Hc Hp Hh Hw.
  destruct (FixupResNet_init_inv _ _ _ Hc) as (net0 & Ha & _ & _ & ->).
  destruct layers as [|l0 [|l1 [|l2 [|l3 rest]]]]; try discriminate.
  injection Ha as <-.
  unfold FixupResNet_stages, init_loop, relu.
  cbn [num_layers net_conv1 bias1 layer1 layer2 layer3 layer4 bias2 fc].
  change (mkConv2d 3 64 3 1 1 DefaultInit)
    with (set_conv_weight DefaultInit (conv3x3 3 64 1)).
  repeat shape_step_of Hp.
  rewrite (visited_stage_shape_of _ _ 64 64 1) by (auto; lia).
  rewrite !strided_one by lia.
  rewrite (visited_stage_shape_of _ _ 64 128 2) by (auto; lia).
  rewrite (visited_stage_shape_of _ _ 128 256 2)
    by (auto using strided_pos; lia).
  rewrite (visited_stage_shape_of _ _ 256 512 2)
    by (auto using strided_pos; lia).
  reflexivity.
Qed.

(** The stem convolution rejects what is not a three-channel image, or
    batch of images, with at least one row and one column. *)
Lemma stem_rejects (pre : list nat) (c h w : nat) :
  c <> 3 \/ h = 0 \/ w = 0 ->
  conv_out_shape (mkConv2d 3 64 3 1 1 DefaultInit) (pre ++ [c; h; w]) = None.
Proof.
  intros H.
  assert (E : (c =? 3) && (0 <? 1) && (3 <=? h + 2 * 1) && (3 <=? w + 2 * 1)
              = false).
  { destruct H as [H | [-> | ->]].
    - apply Nat.eqb_neq in H. now rewrite H.
    - now destruct (c =? 3).
    - now destruct (c =? 3), (3 <=? h + 2 * 1). }
  destruct pre as [|b [|b' pre]]; unfold conv_out_shape;
    cbn [app in_channels conv_stride kernel_size conv_padding];
    [now rewrite E | now rewrite E |].
  destruct pre as [|x [|y [|z pre]]]; reflexivity.
Qed.

(** The forward pass returns on batches of three-channel images only: on
    every input whose shape is not (B, 3, H, W) with B, H and W at least 1
    it raises.  A single image (3, H, W) passes the convolutions and is
    rejected by the classifier, an empty batch by the flattening, anything
    else by the stem convolution. *)
Theorem forward_rejects_other_inputs layers num_classes net s :
  FixupResNet_init layers num_classes = Some net ->
  (forall b h w, 1 <= b -> 1 <= h -> 1 <= w -> s <> [b; 3; h; w]) ->
  FixupResNet_forward net (Some s) = None.
Proof.
  intros Hc Hs.
  assert (Hstem : conv_out_shape (net_conv1 net) s = None ->
                  FixupResNet_forward net (Some s) = None).
  { intros E. unfold FixupResNet_forward, features, relu.
    cbn [conv2d shape_runtime obind]. rewrite E.
    cbn [add leaky_relu shape_runtime obind2].
    now rewrite !sequential_of_failure. }
  assert (Hconv : net_conv1 net = mkConv2d 3 64 3 1 1 DefaultInit).
  { destruct (FixupResNet_init_inv _ _ _ Hc) as (net0 & Ha & _ & _ & ->).
    destruct layers as [|l0 [|l1 [|l2 [|l3 rest]]]]; try discriminate.
    now injection Ha as <-. }
  assert (Hrun : forall pre h w,
            List.length pre <= 1 -> 1 <= h -> 1 <= w ->
            features net (Some (pre ++ [3; h; w]))
            = view_rows (Some (pre ++ [512; 1; 1]))).
  { intros pre h w Hp Hh Hw.
    change (features net (Some (pre ++ [3; h; w])))
      with (view_rows (adaptive_avg_pool
                         (FixupResNet_stages net (Some (pre ++ [3; h; w]))))).
    rewrite (constructed_stages_shape_of _ _ _ _ _ _ Hc Hp Hh Hw).
    set (h4 := strided 2 (strided 2 (strided 2 h))).
    set (w4 := strided 2 (strided 2 (strided 2 w))).
    assert (Hh4 : (0 <? h4) = true) by (apply Nat.ltb_lt, strided_pos).
    assert (Hw4 : (0 <? w4) = true) by (apply Nat.ltb_lt, strided_pos).
    destruct pre as [|b [|b' pre]]; [| |simpl in Hp; lia];
      cbn [app adaptive_avg_pool shape_runtime obind pool_shape];
      now rewrite Hh4, Hw4. }
  destruct (constructed_head _ _ _ Hc) as (_ & Hb2 & Hfc).
  destruct s as [|a [|b [|c [|d [|e s]]]]];
    try (apply Hstem; rewrite Hconv; reflexivity).
  - (* a single image *)
    destruct (Nat.eq_dec a 3) as [-> | Ha];
      [| apply Hstem; rewrite Hconv; apply (stem_rejects []); auto].
    destruct b as [|b];
      [apply Hstem; rewrite Hconv; apply (stem_rejects []); auto|].
    destruct c as [|c];
      [apply Hstem; rewrite Hconv; apply (stem_rejects []); auto|].
    unfold FixupResNet_forward.
    assert (E := Hrun [] (S b) (S c) ltac:(simpl; lia) ltac:(lia)
                      ltac:(lia)).
    cbn [app] in E. rewrite E, Hb2, Hfc.
    cbn [view_rows shape_runtime obind view_rows_shape Nat.eqb numel
         fold_right Nat.mul].
    rewrite add_bias_shape by (simpl; lia).
    reflexivity.
  - (* a batch *)
    destruct (Nat.eq_dec b 3) as [-> | Hb];
      [| apply Hstem; rewrite Hconv; apply (stem_rejects [a]); auto].
    destruct c as [|c];
      [apply Hstem; rewrite Hconv; apply (stem_rejects [a]); auto|].
    destruct d as [|d];
      [apply Hstem; rewrite Hconv; apply (stem_rejects [a]); auto|].
    destruct a as [|a]; [|now elim (Hs (S a) (S c) (S d)); try lia].
    unfold FixupResNet_forward.
    assert (E := Hrun [0] (S c) (S d) ltac:(simpl; lia) ltac:(lia)
                      ltac:(lia)).
    cbn [app] in E. rewrite E. reflexivity.
Qed.

Lemma forward_rejects_other_inputs_witness :
  exists net,
    FixupResNet18 10 = Some net
    /\ FixupResNet_forward net (Some [4; 1; 28; 28]) = None
    /\ FixupResNet_forward net (Some [3; 32; 32]) = None
    /\ FixupResNet_forward net (Some [0; 3; 32; 32]) = None.
Proof.
  assert (Hc : exists net, FixupResNet18 10 = Some net)
    by (eexists; reflexivity).
  destruct Hc as [net Hc]. exists net. split; [exact Hc|].
  pose proof (forward_rejects_other_inputs [2; 2; 2; 2]%Z 10 net) as H.
  repeat split; apply H; try exact Hc; intros b h w Hb Hh Hw E;
    injection E; intros; lia.
Defined.

(** ** Values at initialisation *)

(** Row-major indexing: the offset of the multi-index of [n] is [n]. *)
Lemma ravel_unravel (s : Shape) (n : nat) :
  n < numel s -> ravel s (unravel s n) = n.
Proof.
  revert n. induction s as [|d s IH]; intros n Hn.
  - cbn in *. lia.
  - cbn [numel fold_right] in Hn. fold (numel s) in Hn.
    cbn [unravel ravel].
    assert (Hm : 0 < numel s) by nia.
    assert (Hq : n / numel s < d)
      by (apply Nat.Div0.div_lt_upper_bound; nia).
    rewrite (Nat.mod_small _ _ Hq).
    rewrite IH by (apply Nat.mod_upper_bound; lia).
    pose proof (Nat.div_mod_eq n (numel s)) as E.
    destruct (d =? 1) eqn:E1.
    + apply Nat.eqb_eq in E1. subst d.
      assert (n / numel s = 0) by lia. nia.
    + nia.
Qed.

Lemma pad_shape_same (s : Shape) : pad_shape (List.length s) s = s.
Proof. unfold pad_shape. now rewrite Nat.sub_diag. Qed.

Lemma map_nth_seq (l : list R) :
  map (fun n => nth n l 0%R) (seq 0 (List.length l)) = l.
Proof.
  apply (nth_ext _ _ 0%R 0%R).
  - now rewrite length_map, length_seq.
  - intros n Hn. rewrite length_map, length_seq in Hn.
    rewrite (nth_indep _ 0%R (nth 0 l 0%R)) by
      (now rewrite length_map, length_seq).
    rewrite (map_nth (fun n => nth n l 0%R)).
    now rewrite seq_nth.
Qed.

Lemma nth_single_zero (j : nat) : nth j [0%R] 0%R = 0%R.
Proof. destruct j as [|[|j]]; reflexivity. Qed.

(** Reading a well-formed tensor at the index of every element of its
    own shape gives its elements. *)
Lemma read_own_shape (t : Tensor) :
  well_formed t ->
  map (fun n => nth (ravel (pad_shape (List.length (tshape t)) (tshape t))
                           (unravel (tshape t) n)) (tdata t) 0%R)
      (seq 0 (numel (tshape t)))
  = tdata t.
Proof.
  intros Hwf. rewrite pad_shape_same.
  transitivity (map (fun n => nth n (tdata t) 0%R)
                    (seq 0 (List.length (tdata t))));
    [|apply map_nth_seq].
  rewrite Hwf.
  apply map_ext_in. intros n Hn. apply in_seq in Hn.
  rewrite ravel_unravel by lia. reflexivity.
Qed.

Section AtInitialisation.
Variable K : Kernels.

Local Abbreviation RV := (value_runtime K).

(** Adding a zero (1, 1) parameter changes nothing. *)
Lemma add_zero_bias (t : Tensor) :
  well_formed t -> 2 <= List.length (tshape t) ->
  @add _ RV (Some t) zero_bias = Some t.
Proof.
  intros Hwf Hr. cbn [add value_runtime obind2 zero_bias].
  unfold elementwise. cbn [tshape tdata].
  rewrite broadcast_scalar by assumption.
  unfold broadcast_data. cbn [tshape tdata].
  rewrite (map_ext _
             (fun n =>
                nth (ravel (pad_shape (List.length (tshape t)) (tshape t))
                           (unravel (tshape t) n)) (tdata t) 0%R)).
  - rewrite read_own_shape by auto. now destruct t.
  - intros n. rewrite nth_single_zero. lra.
Qed.

(** Zeros times a (1, 1) parameter, and zeros plus a zero (1, 1)
    parameter, are zeros. *)
Lemma mul_zeros (s : Shape) (n : nat) (p : Tensor) :
  2 <= List.length s -> tshape p = [1; 1] ->
  @mul _ RV (Some (mkTensor s (repeat 0%R n))) (Some p) = Some (zeros s).
Proof.
  intros Hr Hp. cbn [mul value_runtime obind2]. unfold elementwise.
  cbn [tshape tdata]. rewrite Hp, broadcast_scalar by assumption.
  unfold broadcast_data, zeros. cbn [tshape tdata]. f_equal. f_equal.
  rewrite (map_ext _ (fun _ => 0%R)).
  - now rewrite map_const, length_seq.
  - intros k. rewrite nth_repeat_zero. lra.
Qed.

Lemma add_zeros (s : Shape) (n : nat) :
  2 <= List.length s ->
  @add _ RV (Some (mkTensor s (repeat 0%R n))) zero_bias = Some (zeros s).
Proof.
  intros Hr. cbn [add value_runtime obind2 zero_bias]. unfold elementwise.
  cbn [tshape tdata]. rewrite broadcast_scalar by assumption.
  unfold broadcast_data, zeros. cbn [tshape tdata]. f_equal. f_equal.
  rewrite (map_ext _ (fun _ => 0%R)).
  - now rewrite map_const, length_seq.
  - intros k. rewrite nth_repeat_zero, nth_single_zero. lra.
Qed.

(** Adding a well-formed tensor in place to zeros of its shape gives the
    tensor. *)
Lemma iadd_to_zeros (t : Tensor) :
  well_formed t ->
  @iadd _ RV (Some (zeros (tshape t))) (Some t) = Some t.
Proof.
  intros Hwf. cbn [iadd value_runtime obind2]. unfold elementwise_into.
  cbn [zeros tshape tdata]. rewrite broadcast_into_refl.
  unfold broadcast_data. cbn [tshape tdata].
  rewrite (map_ext _
             (fun n =>
                nth (ravel (pad_shape (List.length (tshape t)) (tshape t))
                           (unravel (tshape t) n)) (tdata t) 0%R)).
  - rewrite read_own_shape by auto. now destruct t.
  - intros k. unfold zeros. cbn [tdata]. rewrite nth_repeat_zero. lra.
Qed.

Lemma param_zero_bias (name : String.string) :
  contains "scale" name = false ->
  @param _ RV (init_linear name (nn_Linear 1 1 false)) = zero_bias.
Proof.
  intros Hn. unfold init_linear. rewrite Hn. reflexivity.
Qed.

Lemma mul_zeros_scale (s : Shape) (n : nat) (name : String.string) :
  2 <= List.length s ->
  @mul _ RV (Some (mkTensor s (repeat 0%R n)))
            (@param _ RV (init_linear name (nn_Linear 1 1 false)))
  = Some (zeros s).
Proof.
  intros Hr. cbn [param value_runtime]. apply mul_zeros; [assumption|].
  cbn [tshape]. apply param_shape_init_linear.
Qed.

Lemma conv_well_formed (c : Conv2d) (x : Tensor) (s : Shape) :
  sized_conv K ->
  conv_out_shape c (tshape x) = Some s ->
  exists t, @conv2d _ RV c (Some x) = Some t
            /\ tshape t = s /\ well_formed t.
Proof.
  intros HK Hs. cbn [conv2d value_runtime obind]. unfold apply_conv2d.
  rewrite Hs. eexists. split; [reflexivity|]. split; [reflexivity|].
  unfold well_formed. cbn [tshape tdata]. now apply HK.
Qed.

Lemma zero_conv (c : Conv2d) (x : Tensor) (s : Shape) :
  zero_weight_conv K ->
  conv_weight c = ConstantInit 0 ->
  conv_out_shape c (tshape x) = Some s ->
  @conv2d _ RV c (Some x) = Some (zeros s).
Proof.
  intros HK Hw Hs. cbn [conv2d value_runtime obind]. unfold apply_conv2d.
  rewrite Hs, Hw. cbn [realise]. now rewrite (HK _ _ _ _ Hs).
Qed.

Lemma relu_well_formed (t : Tensor) :
  well_formed t ->
  exists t', @leaky_relu _ RV negative_slope (Some t) = Some t'
             /\ tshape t' = tshape t /\ well_formed t'.
Proof.
  intros Hwf. eexists. split; [reflexivity|]. split; [reflexivity|].
  unfold well_formed. cbn [tshape tdata]. now rewrite length_map.
Qed.

(** A visited block of [_make_layer] on a well-formed input. *)
Lemma visited_block_at_initialisation L stage j i p st ds x b h w :
  sized_conv K -> zero_weight_conv K ->
  ~ In "c"%char (list_ascii_of_string stage) ->
  0 < st ->
  ds = Some (conv1x1 i p st) \/ (ds = None /\ st = 1 /\ i = p) ->
  tshape x = [b; i; h; w] -> 1 <= h -> 1 <= w -> well_formed x ->
  let blk := visit_block L (stage ++ "." ++ str j)%string
                         (FixupBasicBlock_init i p st ds) in
  @FixupBasicBlock_forward _ RV blk (Some x)
  = @leaky_relu _ RV negative_slope
      match downsample blk with
      | Some d => @conv2d _ RV d (Some x)
      | None => Some x
      end.
Proof.
  intros HKs HKz Hstage Hst Hds Hx Hh Hw Hwf blk.
  assert (Hname : forall attr,
            ~ In "c"%char (list_ascii_of_string attr) ->
            contains "scale" ((stage ++ "." ++ str j) ++ attr)%string
            = false)
    by (intros attr Ha; now apply bias_name_not_scale).
  unfold FixupBasicBlock_forward, relu. subst blk.
  unfold visit_block, init_block.
  cbn [FixupBasicBlock_init bias1a conv1 bias1b bias2a conv2 scale bias2b
       downsample].
  rewrite (param_zero_bias ((stage ++ "." ++ str j) ++ ".bias1a")),
    (param_zero_bias ((stage ++ "." ++ str j) ++ ".bias1b")),
    (param_zero_bias ((stage ++ "." ++ str j) ++ ".bias2a")),
    (param_zero_bias ((stage ++ "." ++ str j) ++ ".bias2b"))
    by (apply Hname; simpl; intuition discriminate).
  rewrite (add_zero_bias x Hwf) by (rewrite Hx; simpl; lia).
  (* conv1, bias1b, activation, bias2a *)
  destruct (conv_well_formed
              (set_conv_weight
                 (NormalInit 0
                    (sqrt (2 / fan_term (conv3x3 i p st)) * depth_factor L))
                 (conv3x3 i p st))
              x [b; p; strided st h; strided st w] HKs)
    as (t1 & -> & Ht1 & Hwf1);
    [rewrite Hx; now apply conv3x3_shape|].
  rewrite (add_zero_bias t1 Hwf1) by (rewrite Ht1; simpl; lia).
  destruct (relu_well_formed t1 Hwf1) as (t2 & -> & Ht2 & Hwf2).
  rewrite (add_zero_bias t2 Hwf2) by (rewrite Ht2, Ht1; simpl; lia).
  (* conv2 has zero weight *)
  rewrite (zero_conv (set_conv_weight (ConstantInit 0) (conv3x3 p p 1)) t2
             [b; p; strided st h; strided st w] HKz eq_refl)
    by (rewrite Ht2, Ht1, conv3x3_shape
          by (auto using strided_pos; lia);
        now rewrite !strided_one by apply strided_pos).
  unfold zeros at 1.
  rewrite mul_zeros_scale by (simpl; lia).
  unfold zeros at 1. rewrite add_zeros by (simpl; lia).
  destruct Hds as [-> | (-> & -> & ->)].
  - destruct (conv_well_formed
                (set_conv_weight
                   (NormalInit 0 (sqrt (2 / fan_term (conv1x1 i p st))))
                   (conv1x1 i p st))
                x [b; p; strided st h; strided st w] HKs)
      as (t3 & -> & Ht3 & Hwf3);
      [rewrite Hx; now apply conv1x1_shape|].
    rewrite <- Ht3. now rewrite iadd_to_zeros.
  - rewrite !strided_one by lia. rewrite <- Hx.
    now rewrite iadd_to_zeros.
Qed.

End AtInitialisation.

Lemma in_make_layer_cases inplanes planes blocks st m :
  In m (fst (_make_layer inplanes planes blocks st)) ->
  0 < st ->
  exists i s ds,
    m = FixupBasicBlock_init i planes s ds
    /\ 0 < s
    /\ (ds = Some (conv1x1 i planes s) \/ (ds = None /\ s = 1 /\ i = planes)).
Proof.
  unfold _make_layer, expansion. rewrite Nat.mul_1_r. cbn [fst].
  intros [E|Hin] Hst.
  - subst m. exists inplanes, st. eexists. split; [reflexivity|].
    split; [assumption|].
    destruct (st =? 1) eqn:E1; [|now left].
    destruct (inplanes =? planes) eqn:E2; [|now left].
    right. apply Nat.eqb_eq in E1, E2. auto.
  - apply repeat_spec in Hin. subst m.
    exists planes, 1, None. repeat split; auto.
Qed.

Lemma constructed_block_cases layers num_classes net blk :
  FixupResNet_init layers num_classes = Some net ->
  In blk (blocks net) ->
  exists stage j i p s ds,
    ~ In "c"%char (list_ascii_of_string stage)
    /\ 0 < s
    /\ (ds = Some (conv1x1 i p s) \/ (ds = None /\ s = 1 /\ i = p))
    /\ blk = visit_block (total layers) (stage ++ "." ++ str j)%string
                         (FixupBasicBlock_init i p s ds).
Proof.
  intros Hc Hb.
  destruct layers as [|l0 [|l1 [|l2 [|l3 rest]]]]; try discriminate.
  destruct (constructed_stages _ _ _ _ _ _ _ Hc) as (_ & H1 & H2 & H3 & H4).
  unfold blocks in Hb. rewrite H1, H2, H3, H4 in Hb.
  rewrite !in_app_iff in Hb.
  destruct Hb as [Hb|[Hb|[Hb|Hb]]];
    apply in_visit_sequential_from in Hb;
    destruct Hb as (j & m & Hm & ->);
    apply in_make_layer_cases in Hm; try lia;
    destruct Hm as (i & s & ds & -> & Hs & Hds).
  - exists "layer1"%string, j, i, 64, s, ds. repeat split; auto.
    simpl. intuition discriminate.
  - exists "layer2"%string, j, i, 128, s, ds. repeat split; auto.
    simpl. intuition discriminate.
  - exists "layer3"%string, j, i, 256, s, ds. repeat split; auto.
    simpl. intuition discriminate.
  - exists "layer4"%string, j, i, 512, s, ds. repeat split; auto.
    simpl. intuition discriminate.
Qed.

(** Right after construction every block computes the activation of its
    skip connection alone: [conv2] is zero, [scale] is one and the biases
    are zero, so the residual branch contributes nothing.  The block
    returns [activation(downsample(x))] when it has a downsampling layer
    and [activation(x)] otherwise, for every convolution kernel that
    returns zeros on a zero weight. *)
Theorem block_at_initialisation (K : Kernels) layers num_classes net blk
    x b h w :
  FixupResNet_init layers num_classes = Some net ->
  In blk (blocks net) ->
  sized_conv K -> zero_weight_conv K ->
  tshape x = [b; in_channels (conv1 blk); h; w] ->
  1 <= h -> 1 <= w -> well_formed x ->
  @FixupBasicBlock_forward _ (value_runtime K) blk (Some x)
  = @leaky_relu _ (value_runtime K) negative_slope
      match downsample blk with
      | Some d => @conv2d _ (value_runtime K) d (Some x)
      | None => Some x
      end.
Proof.
  intros Hc Hb HKs HKz Hx Hh Hw Hwf.
  destruct (constructed_block_cases _ _ _ _ Hc Hb)
    as (stage & j & i & p & s & ds & Hstage & Hs & Hds & ->).
  apply (visited_block_at_initialisation K _ stage j i p s ds x b h w);
    auto.
Qed.

Lemma zero_kernels_sized : sized_conv zero_kernels.
Proof.
  intros c w x s Hs. cbn [conv_data zero_kernels].
  now rewrite Hs, repeat_length.
Qed.

Lemma zero_kernels_zero_weight : zero_weight_conv zero_kernels.
Proof.
  intros c n x s Hs. cbn [conv_data zero_kernels]. now rewrite Hs.
Qed.

Lemma block_at_initialisation_witness :
  exists net blk,
    FixupResNet18 10 = Some net
    /\ In blk (blocks net)
    /\ @FixupBasicBlock_forward _ (value_runtime zero_kernels) blk
         (Some (zeros [1; 64; 2; 2]))
       = @leaky_relu _ (value_runtime zero_kernels) negative_slope
           (Some (zeros [1; 64; 2; 2])).
Proof.
  assert (Hc : exists net, FixupResNet18 10 = Some net)
    by (eexists; reflexivity).
  destruct Hc as [net Hc]. exists net.
  assert (Hb : exists blk,
             In blk (blocks net) /\ in_channels (conv1 blk) = 64
             /\ downsample blk = None).
  { unfold FixupResNet18 in Hc.
    destruct (FixupResNet_init_inv _ _ _ Hc) as (net0 & Ha & _ & _ & ->).
    injection Ha as <-. eexists. split; [left; reflexivity|].
    split; reflexivity. }
  destruct Hb as (blk & Hb & Hin & Hds). exists blk.
  split; [exact Hc|]. split; [exact Hb|].
  rewrite (block_at_initialisation zero_kernels [2; 2; 2; 2]%Z 10 net blk
             (zeros [1; 64; 2; 2]) 1 2 2 Hc Hb zero_kernels_sized
             zero_kernels_zero_weight).
  - now rewrite Hds.
  - now rewrite Hin.
  - lia.
  - lia.
  - reflexivity.
Defined.

(** ** A stage over the store *)

Section StageStore.
Context {T : Type} {RT : TensorRuntime T}.

Ltac run_block Hx :=
  repeat first
    [ rewrite (load_caller _ _ _ _ Hx)
    | rewrite alloc_local
    | rewrite load_local
    | rewrite store_local by (simpl; lia)
    | progress cbn [List.length app overwrite Nat.add nth_error] ].

(** A block over the store: its result, and what it leaves. *)
Lemma block_over_store (self : FixupBasicBlock) (s : Store T) (x : Ref)
    (v : T) :
  nth_error s x = Some v ->
  exists r s',
    FixupBasicBlock_forward_st self x s = Some (r, s')
    /\ nth_error s' r = Some (FixupBasicBlock_forward self v)
    /\ List.length s <= List.length s'
    /\ forall i, i < List.length s -> nth_error s' i = nth_error s i.
Proof.
  intros Hx.
  unfold FixupBasicBlock_forward_st, FixupBasicBlock_forward, relu,
    add_param, mul_param, apply_conv, relu_, iadd_, bind, ret.
  rewrite (load_first _ _ _ Hx).
  destruct (downsample self) as [d|]; run_block Hx;
    (eexists; eexists; split; [reflexivity|]; split;
     [ rewrite nth_error_local; reflexivity
     | split;
       [ rewrite length_app; lia
       | intros i Hi; now rewrite nth_error_app1 ] ]).
Qed.

Lemma stage_over_store (l : list FixupBasicBlock) :
  forall (input : St T Ref) (s0 s : Store T) (r : Ref) (v : T),
    input s0 = Some (r, s) ->
    nth_error s r = Some v ->
    exists r' s',
      fold_left (fun input m => bind input (FixupBasicBlock_forward_st m))
                l input s0
      = Some (r', s')
      /\ nth_error s' r' = Some (Sequential_forward l v)
      /\ List.length s <= List.length s'
      /\ forall i, i < List.length s -> nth_error s' i = nth_error s i.
Proof.
  induction l as [|m l IH]; intros input s0 s r v Hin Hr.
  - exists r, s. cbn. auto.
  - cbn [fold_left]. unfold Sequential_forward. cbn [fold_left].
    destruct (block_over_store m s r v Hr) as (r1 & s1 & Hb & Hv & Hl & Hf).
    destruct (IH (bind input (FixupBasicBlock_forward_st m)) s0 s1 r1
                 (FixupBasicBlock_forward m v))
      as (r' & s' & Hs & Hv' & Hl' & Hf').
    + unfold bind. now rewrite Hin.
    + exact Hv.
    + exists r', s'. repeat split; auto; try lia.
      intros i Hi. rewrite Hf' by lia. now apply Hf.
Qed.

(** A stage leaves every tensor its caller held, its input included, as
    it was, although its blocks rectify and add in place; the tensor it
    returns is the composition of the blocks' forward passes. *)
Theorem stage_keeps_callers_tensors (l : list FixupBasicBlock)
    (s : Store T) (x : Ref) (v : T) :
  nth_error s x = Some v ->
  exists r s',
    Sequential_forward_st l x s = Some (r, s')
    /\ nth_error s' r = Some (Sequential_forward l v)
    /\ forall i, i < List.length s -> nth_error s' i = nth_error s i.
Proof.
  intros Hx.
  destruct (stage_over_store l (ret x) s s x v eq_refl Hx)
    as (r & s' & Hs & Hv & _ & Hf).
  exists r, s'. auto.
Qed.

End StageStore.

Lemma stage_keeps_callers_tensors_witness :
  let v : option Shape := Some [1; 64; 8; 8] in
  let l := fst (_make_layer 64 128 2 2) in
  exists r s',
    Sequential_forward_st l 0 [v] = Some (r, s')
    /\ nth_error s' r = Some (Some [1; 128; 4; 4])
    /\ nth_error s' 0 = Some v.
Proof.
  intros v l.
  destruct (stage_keeps_callers_tensors l [v] 0 v eq_refl)
    as (r & s' & Hs & Hv & Hf).
  exists r, s'. split; [exact Hs|]. split.
  - rewrite Hv. reflexivity.
  - apply (Hf 0). simpl. lia.
Defined.

End FixupMore.

(** * Further properties of the recurrent models *)

Module LMMore.

Import LM LMSpec.

Unset Implicit Arguments.

(** ** The transforms and the gating loop on shapes *)

Section AnyRuntime.
Context {W T : Type} {RT : Runtime W T}.

(** The constructor always builds the first transform: the list holds
    [max(1, mogrify_steps)] transforms, one even when no round runs. *)
Theorem mogrifier_list_size (input_size hidden_size : nat) (steps : Z)
    (k : nat) :
  List.length
    (mogrifier_list (MogrifierLSTMCell_init input_size hidden_size steps k))
  = Z.to_nat (Z.max 1 steps).
Proof. rewrite mogrifier_list_length. lia. Qed.

(** The transform at a position of the list. *)
Lemma mogrifier_list_nth (input_size hidden_size : nat) (steps : Z)
    (k i : nat) :
  i < Z.to_nat (Z.max 1 steps) ->
  nth_error
    (mogrifier_list (MogrifierLSTMCell_init input_size hidden_size steps k))
    i
  = Some (let src := if Nat.even i then hidden_size else input_size in
          let dst := if Nat.even i then input_size else hidden_size in
          if (input_size <? k) || (hidden_size <? k)
          then full_rank src dst
          else low_rank src k dst).
Proof.
  intros Hi. rewrite mogrifier_list_init.
  assert (Hr : forall (a b : Layer) j,
            j < Z.to_nat (steps - 1) ->
            nth_error
              (map (fun z => if (z mod 2 =? 0)%Z then a else b)
                   (range 1 steps)) j
            = Some (if Nat.even (S j) then a else b)).
  { intros a b j Hj. rewrite nth_error_map, (range_nth 1 steps j Hj).
    cbn [option_map].
    replace (1 + Z.of_nat j)%Z with (Z.of_nat (S j)) by lia.
    now rewrite mod2_even. }
  destruct ((input_size <? k) || (hidden_size <? k));
    (destruct i as [|j];
     [ reflexivity
     | cbn [nth_error]; rewrite Hr by lia;
       destruct (Nat.even (S j)); reflexivity ]).
Qed.

End AnyRuntime.

(** The shape runtime: a transform from [src] to [dst] features. *)
Lemma replace_last_row (src dst b : nat) :
  replace_last src dst [b; src] = Some [b; dst].
Proof.
  unfold replace_last. cbn [rev app]. now rewrite Nat.eqb_refl.
Qed.

Lemma transform_shape (i src k dst b : nat) (low : bool) :
  @call_layer _ _ shape_runtime i
    (if low then low_rank src k dst else full_rank src dst)
    (Some [b; src])
  = Some [b; dst].
Proof.
  destruct low; cbn [call_layer shape_runtime Layer_shape low_rank full_rank
                     fold_left Fixup.obind Linear_shape in_features
                     out_features];
    unfold Linear_shape; cbn [in_features out_features];
    rewrite !replace_last_row; cbn [Fixup.obind];
    unfold Linear_shape; cbn [in_features out_features];
    now rewrite ?replace_last_row.
Qed.

Lemma gate_shape (i : nat) (m : Layer) (a : option Fixup.Shape)
    (s : Fixup.Shape) :
  @call_layer _ _ shape_runtime i m a = Some s ->
  gate (RT := shape_runtime) i m a (Some s) = Some s.
Proof.
  intros Hm. unfold gate.
  cbn [mul scalar_mul sigmoid shape_runtime]. rewrite Hm.
  cbn [Fixup.obind2]. apply FixupSpec.broadcast_refl.
Qed.

Lemma succ_parity (i : nat) :
  ((Z.of_nat i + 1) mod 2 =? 0)%Z = negb (Nat.even i).
Proof.
  replace (Z.of_nat i + 1)%Z with (Z.of_nat (S i)) by lia.
  rewrite mod2_even, Nat.even_succ. now rewrite <- Nat.negb_even.
Qed.

(** One round on well-shaped [x] and [h] leaves their shapes. *)
Lemma mogrify_round_shape (input_size hidden_size : nat) (steps : Z)
    (k b i : nat) :
  i < Z.to_nat (Z.max 1 steps) ->
  let self := MogrifierLSTMCell_init (RT := shape_runtime)
                input_size hidden_size steps k in
  let st := Some (Some [b; input_size], Some [b; hidden_size]) in
  mogrify_round self st (Z.of_nat i) = st.
Proof.
  intros Hi self st. subst st. cbn [mogrify_round].
  rewrite Nat2Z.id. unfold self.
  rewrite (mogrifier_list_nth input_size hidden_size steps k i Hi).
  rewrite succ_parity. cbv zeta.
  pose proof (transform_shape i) as Ht. unfold gate in *.
  destruct (Nat.even i); cbn [negb].
  - pose proof (gate_shape i
        (if (input_size <? k) || (hidden_size <? k)
         then full_rank hidden_size input_size
         else low_rank hidden_size k input_size)
        (Some [b; hidden_size]) [b; input_size]) as Hg.
    unfold gate in Hg. do 2 f_equal. apply Hg.
    destruct ((input_size <? k) || (hidden_size <? k)).
    + apply (Ht hidden_size k input_size b false).
    + apply (Ht hidden_size k input_size b true).
  - pose proof (gate_shape i
        (if (input_size <? k) || (hidden_size <? k)
         then full_rank input_size hidden_size
         else low_rank input_size k hidden_size)
        (Some [b; input_size]) [b; hidden_size]) as Hg.
    unfold gate in Hg. do 2 f_equal. apply Hg.
    destruct ((input_size <? k) || (hidden_size <? k)).
    + apply (Ht input_size k hidden_size b false).
    + apply (Ht input_size k hidden_size b true).
Qed.

Lemma mogrify_rounds_shape (input_size hidden_size : nat) (steps : Z)
    (k b n : nat) :
  n <= Z.to_nat (Z.max 1 steps) ->
  let self := MogrifierLSTMCell_init (RT := shape_runtime)
                input_size hidden_size steps k in
  let st := Some (Some [b; input_size], Some [b; hidden_size]) in
  fold_left (mogrify_round self) (range 0 (Z.of_nat n)) st = st.
Proof.
  intros Hn self st. induction n as [|n IH]; [reflexivity|].
  rewrite range_snoc, fold_left_app, IH by lia.
  cbn [fold_left]. apply mogrify_round_shape. lia.
Qed.

(** The directions of the transforms built by [__init__] fit the rounds
    of [mogrify]: on an input of shape (B, input_size) and a hidden state
    of shape (B, hidden_size) every round is well-shaped and [mogrify]
    returns tensors of the same two shapes; the cell then returns a
    hidden and a cell state of shape (B, hidden_size). *)
Theorem mogrifier_cell_shapes (input_size hidden_size : nat) (steps : Z)
    (k b : nat) :
  let self := MogrifierLSTMCell_init (RT := shape_runtime)
                input_size hidden_size steps k in
  let x := Some [b; input_size] in
  let h := Some [b; hidden_size] in
  mogrify self x h = Some (x, h)
  /\ MogrifierLSTMCell_forward self x (h, h) = Some (h, h).
Proof.
  intros self x h.
  assert (Hm : mogrify self x h = Some (x, h)).
  { unfold mogrify. rewrite range_of_nat.
    apply (mogrify_rounds_shape input_size hidden_size steps k b).
    change (mogrify_steps self) with steps. lia. }
  split; [exact Hm|].
  unfold MogrifierLSTMCell_forward. rewrite Hm.
  unfold LSTMCell_forward, self, x, h.
  cbn [lstm MogrifierLSTMCell_init nn_LSTMCell weight_ih weight_hh bias_ih
       bias_hh data nn_Parameter fresh lstm_cell shape_runtime fst snd
       lstm_cell_shape].
  now rewrite !FixupSpec.shape_eqb_refl, !Nat.eqb_refl.
Qed.

(** ** The sequence drivers on shapes *)

Lemma cat1_shape_rows (b a h n : nat) :
  cat1_shape [b; a; h] (repeat (Some [b; 1; h]) n) = Some [b; a + n; h].
Proof.
  revert a. induction n as [|n IH]; intros a.
  - cbn. now rewrite Nat.add_0_r.
  - cbn [repeat cat1_shape].
    rewrite Nat.eqb_refl, FixupSpec.shape_eqb_refl. cbn [andb].
    rewrite IH. do 3 f_equal. lia.
Qed.

Lemma cat1_rows (b h n : nat) :
  1 <= n -> cat1_shapes (repeat (Some [b; 1; h]) n) = Some [b; n; h].
Proof.
  intros Hn. destruct n as [|n]; [lia|].
  cbn [repeat cat1_shapes]. now rewrite cat1_shape_rows.
Qed.

Lemma repeat_snoc {A : Type} (a : A) (n : nat) :
  repeat a n ++ [a] = repeat a (S n).
Proof.
  induction n as [|n IH]; [reflexivity|]. cbn. now rewrite IH.
Qed.

Lemma select_step_row (b t e step : nat) :
  step < t ->
  @select_step _ _ shape_runtime (Some [b; t; e]) step = Some [b; e].
Proof.
  intros Hs.
  cbn [select_step shape_runtime Fixup.obind select_step_shape].
  apply Nat.ltb_lt in Hs. now rewrite Hs.
Qed.

Lemma Dropout_shape (training : bool) (t : option Fixup.Shape) :
  Dropout (RT := shape_runtime) training t = t.
Proof. now destruct training. Qed.

(** The loop of the driver over cells that keep the shapes of their
    states. *)
Lemma loop_shape (cell1 cell2 :
                    option Fixup.Shape ->
                    option Fixup.Shape * option Fixup.Shape ->
                    option (option Fixup.Shape * option Fixup.Shape))
    (training : bool) (b t e h1 h2 : nat) (steps : list nat)
    (acc : list (option Fixup.Shape)) :
  let s1 := (Some [b; h1], Some [b; h1]) in
  let s2 := (Some [b; h2], Some [b; h2]) in
  cell1 (Some [b; e]) s1 = Some s1 ->
  cell2 (Some [b; h1]) s2 = Some s2 ->
  Forall (fun step => step < t) steps ->
  fold_left (loop_body (RT := shape_runtime) cell1 cell2 training
                       (Some [b; t; e]))
            steps (Some (s1, s2, acc))
  = Some (s1, s2, acc ++ repeat (Some [b; 1; h2]) (List.length steps)).
Proof.
  intros s1 s2 Hc1 Hc2 Hsteps. revert acc.
  induction Hsteps as [|step steps Hstep _ IH]; intros acc.
  - cbn. now rewrite app_nil_r.
  - cbn [fold_left loop_body List.length].
    rewrite (select_step_row b t e step Hstep), Hc1.
    unfold s1 at 1. rewrite Dropout_shape, Hc2. unfold s2 at 1.
    cbn [unsqueeze1 shape_runtime Fixup.obind unsqueeze1_shape].
    fold s1 s2. rewrite IH, <- app_assoc. do 2 f_equal.
Qed.

Lemma seq_below (t : nat) : Forall (fun step => step < t) (seq 0 t).
Proof. apply Forall_forall. intros n Hn. apply in_seq in Hn. lia. Qed.

(** The driver over such cells, from the zero state. *)
Lemma driver_shape cell1 cell2 (training : bool) (b t e h1 h2 : nat) :
  let s1 := (Some [b; h1], Some [b; h1]) in
  let s2 := (Some [b; h2], Some [b; h2]) in
  cell1 (Some [b; e]) s1 = Some s1 ->
  cell2 (Some [b; h1]) s2 = Some s2 ->
  hidden_sequence (RT := shape_runtime) cell1 cell2 training
    (Some [b; t; e]) t (initial_states b h1 h2)
  = Some (if t =? 0 then None else Some [b; t; h2]).
Proof.
  intros s1 s2 Hc1 Hc2. unfold hidden_sequence, initial_states.
  cbn [zeros shape_runtime].
  pose proof (loop_shape cell1 cell2 training b t e h1 h2 (seq 0 t) []
                Hc1 Hc2 (seq_below t)) as Hl.
  cbv zeta in Hl.
  match goal with
  | |- context [fold_left ?f ?l ?a] =>
      replace (fold_left f l a)
        with (Some (s1, s2,
                    [] ++ repeat (Some [b; 1; h2]) (List.length (seq 0 t))))
        by (symmetry; exact Hl)
  end.
  rewrite length_seq, Dropout_shape. cbn [app cat1 shape_runtime].
  destruct t as [|t]; [reflexivity|].
  now rewrite cat1_rows by lia.
Qed.

Lemma plain_cell_shape (i h b : nat) :
  plain (RT := shape_runtime) (nn_LSTMCell i h) (Some [b; i])
        (Some [b; h], Some [b; h])
  = Some (Some [b; h], Some [b; h]).
Proof.
  unfold plain, LSTMCell_forward.
  cbn [nn_LSTMCell weight_ih weight_hh bias_ih bias_hh data nn_Parameter
       fresh lstm_cell shape_runtime fst snd lstm_cell_shape].
  now rewrite !FixupSpec.shape_eqb_refl, !Nat.eqb_refl.
Qed.

Lemma logits_shape (voc hid b t : nat) :
  head (RT := shape_runtime)
       (logits (LanguageModel_init (RT := shape_runtime) voc 0 hid))
       (Some [b; t; hid])
  = Some [b; t; voc].
Proof.
  unfold head.
  cbn [logits LanguageModel_init logits_Linear lin_weight lin_bias lin_in
       lin_out zero_data data nn_Parameter fresh zero_ linear log_softmax
       shape_runtime Fixup.obind linear_shape].
  rewrite FixupSpec.shape_eqb_refl. unfold replace_last.
  cbn [rev app]. now rewrite Nat.eqb_refl.
Qed.

(** The embedding of a tensor of tokens of the vocabulary. *)
Lemma embedding_rows (voc e : nat) (inputs : Tokens) :
  token_tensor inputs -> in_vocabulary voc inputs ->
  embedding_shape [voc; e] inputs = Some [n_batch inputs; n_seq inputs; e].
Proof.
  intros Ht Hv. unfold embedding_shape. rewrite Ht, Nat.eqb_refl.
  replace (forallb (fun id => id <? voc) (ids inputs)) with true;
    [reflexivity|].
  symmetry. apply forallb_forall. intros id Hid. apply Nat.ltb_lt.
  revert id Hid. now apply Forall_forall.
Qed.

(** A token outside the vocabulary makes the embedding raise. *)
Lemma embedding_rejects (voc e : nat) (inputs : Tokens) :
  ~ in_vocabulary voc inputs -> embedding_shape [voc; e] inputs = None.
Proof.
  intros Hv. unfold embedding_shape.
  destruct (forallb (fun id => id <? voc) (ids inputs)) eqn:F;
    [|now rewrite andb_false_r].
  exfalso. apply Hv. apply Forall_forall. intros id Hid.
  apply Nat.ltb_lt. revert id Hid. now apply forallb_forall.
Qed.

(** Without an embedding the loop collects no hidden state. *)
Lemma loop_without_embedding (c1 c2 : LSTMCell) (train : bool)
    (steps : list nat) s1 s2 (acc : list (option Fixup.Shape)) :
  exists s1' s2',
    fold_left (loop_body (RT := shape_runtime) (plain c1) (plain c2) train
                         None)
              steps (Some (s1, s2, acc))
    = Some (s1', s2', acc ++ repeat None (List.length steps)).
Proof.
  revert s1 s2 acc. induction steps as [|t steps IH]; intros s1 s2 acc.
  - exists s1, s2. cbn. now rewrite app_nil_r.
  - cbn [fold_left loop_body plain List.length repeat].
    unfold LSTMCell_forward.
    cbn [select_step lstm_cell unsqueeze1 shape_runtime Fixup.obind
         lstm_cell_shape].
    rewrite Dropout_shape. cbn [lstm_cell_shape Fixup.obind].
    destruct (IH (None, None) (None, None) (acc ++ [None]))
      as (s1' & s2' & ->).
    exists s1', s2'. now rewrite <- app_assoc.
Qed.

(** A constructed language model maps a batch of B sequences of T >= 1
    tokens of its vocabulary to a tensor of shape (B, T, voc_size), in
    training and in evaluation mode; on sequences of no token the
    concatenation of the empty [hid_seq] raises, and so does the
    embedding of a token that is not in the vocabulary. *)
Theorem language_model_output_shape (voc emb hid : nat) (train : bool)
    (inputs : Tokens) :
  let model := LanguageModel_init (RT := shape_runtime) voc emb hid in
  let model := if train then model else LanguageModel_eval model in
  (token_tensor inputs -> in_vocabulary voc inputs ->
   LanguageModel_forward model inputs None
   = Some (if n_seq inputs =? 0 then None
           else Some [n_batch inputs; n_seq inputs; voc]))
  /\ (~ in_vocabulary voc inputs ->
      LanguageModel_forward model inputs None = Some None).
Proof.
  intros model0 model.
  assert (E : LanguageModel_forward model inputs None
              = option_map (head (logits model0))
                  (hidden_sequence (plain (nn_LSTMCell emb hid))
                     (plain (nn_LSTMCell hid hid)) train
                     (embedding_shape [voc; emb] inputs)
                     (n_seq inputs)
                     (initial_states (n_batch inputs) hid hid))).
  { unfold model, model0. destruct train; reflexivity. }
  split.
  - intros Ht Hv. etransitivity; [exact E|].
    rewrite (embedding_rows _ _ _ Ht Hv).
    rewrite driver_shape by apply plain_cell_shape.
    cbn [option_map]. f_equal.
    destruct (n_seq inputs =? 0); [reflexivity|].
    apply (logits_shape voc hid).
  - intros Hv. etransitivity; [exact E|].
    rewrite (embedding_rejects _ _ _ Hv).
    unfold hidden_sequence, initial_states.
    destruct (loop_without_embedding (nn_LSTMCell emb hid)
                (nn_LSTMCell hid hid) train (seq 0 (n_seq inputs))
                (zeros [n_batch inputs; hid], zeros [n_batch inputs; hid])
                (zeros [n_batch inputs; hid], zeros [n_batch inputs; hid])
                []) as (s1 & s2 & ->).
    rewrite Dropout_shape. cbn [app cat1 shape_runtime option_map].
    now destruct (List.length (seq 0 (n_seq inputs))).
Qed.

Lemma language_model_output_shape_witness :
  LanguageModel_forward
    (LanguageModel_eval (LanguageModel_init (RT := shape_runtime) 5 3 4))
    (mkTokens 2 3 [0; 1; 2; 3; 4; 0]) None
  = Some (Some [2; 3; 5])
  /\ LanguageModel_forward
       (LanguageModel_eval (LanguageModel_init (RT := shape_runtime) 5 3 4))
       (mkTokens 1 1 [7]) None
     = Some None.
Proof.
  split.
  - apply (proj1 (language_model_output_shape 5 3 4 false
                    (mkTokens 2 3 [0; 1; 2; 3; 4; 0]))).
    + reflexivity.
    + repeat constructor.
  - apply (proj2 (language_model_output_shape 5 3 4 false
                    (mkTokens 1 1 [7]))).
    intros H. inversion H as [|id l Hid _]. lia.
Defined.

(** The Mogrifier language model has the same output shape, for every
    number of mogrification rounds: the inherited driver reads
    [hidden_size] from the Mogrifier cells and their steps keep the
    shapes of the recurrent states. *)
Theorem mogrifier_language_model_output_shape (steps : Z)
    (voc emb hid : nat) (inputs : Tokens) :
  token_tensor inputs -> in_vocabulary voc inputs ->
  MogrifierLanguageModel_forward
    (MogrifierLanguageModel_init (RT := shape_runtime) steps voc emb hid)
    inputs None
  = Some (if n_seq inputs =? 0 then None
          else Some [n_batch inputs; n_seq inputs; voc]).
Proof.
  intros Ht Hv.
  assert (E : MogrifierLanguageModel_forward
                (MogrifierLanguageModel_init (RT := shape_runtime)
                   steps voc emb hid) inputs None
              = option_map
                  (head (logits (LanguageModel_init (RT := shape_runtime)
                                   voc emb hid)))
                  (hidden_sequence
                     (MogrifierLSTMCell_forward
                        (MogrifierLSTMCell_init emb hid steps default_k))
                     (MogrifierLSTMCell_forward
                        (MogrifierLSTMCell_init hid hid steps default_k))
                     true
                     (embedding_shape [voc; emb] inputs)
                     (n_seq inputs)
                     (initial_states (n_batch inputs) hid hid)))
    by reflexivity.
  etransitivity; [exact E|]. rewrite (embedding_rows _ _ _ Ht Hv).
  rewrite driver_shape;
    try apply (mogrifier_cell_shapes _ _ steps default_k (n_batch inputs)).
  cbn [option_map]. f_equal.
  destruct (n_seq inputs =? 0); [reflexivity|].
  apply (logits_shape voc hid).
Qed.

Lemma mogrifier_language_model_output_shape_witness :
  MogrifierLanguageModel_forward
    (MogrifierLanguageModel_init (RT := shape_runtime) 5 50 100 120)
    (mkTokens 2 2 [0; 49; 7; 7]) None
  = Some (Some [2; 2; 50]).
Proof.
  apply (mogrifier_language_model_output_shape 5 50 100 120
           (mkTokens 2 2 [0; 49; 7; 7])).
  - reflexivity.
  - repeat constructor.
Defined.

(** ** The converted model *)

Lemma LSTM_layer_shape (i h b n : nat) :
  LSTM_layer (RT := shape_runtime) [4 * h; i] [4 * h; h] [4 * h] [4 * h]
    (repeat (Some [b; i]) n) (Some [b; h], Some [b; h])
  = repeat (Some [b; h]) n.
Proof.
  induction n as [|n IH]; [reflexivity|].
  cbn [repeat LSTM_layer lstm_cell shape_runtime fst snd lstm_cell_shape].
  rewrite !FixupSpec.shape_eqb_refl, !Nat.eqb_refl. cbn [andb].
  f_equal. exact IH.
Qed.

Lemma select_steps_rows (b t e : nat) :
  map (@select_step _ _ shape_runtime (Some [b; t; e])) (seq 0 t)
  = repeat (Some [b; e]) t.
Proof.
  transitivity (map (fun _ : nat => Some [b; e]) (seq 0 t)).
  - apply map_ext_in. intros n Hn. apply in_seq in Hn.
    apply select_step_row. lia.
  - now rewrite map_const, length_seq.
Qed.

Lemma map_Dropout_shape (training : bool) (l : list (option Fixup.Shape)) :
  map (Dropout (RT := shape_runtime) training) l = l.
Proof.
  rewrite (map_ext _ (fun t => t)) by apply Dropout_shape. apply map_id.
Qed.

Lemma view_rows_sequence (b t h : nat) :
  0 < h -> view_rows_shape h [b; t; h] = Some [b * t; h].
Proof.
  intros Hh. unfold view_rows_shape.
  replace (Fixup.numel [b; t; h]) with ((b * t) * h) by (cbn; lia).
  rewrite Nat.Div0.mod_mul, Nat.div_mul by lia.
  apply Nat.ltb_lt in Hh. now rewrite Hh.
Qed.

(** The conversion of a constructed model of positive hidden size
    returns, for B sequences of T >= 1 tokens of the vocabulary, a tensor
    of shape (B * T, voc_size) where the source model returns one of
    shape (B, T, voc_size). *)
Theorem converted_model_output_shape (voc emb hid : nat) (inputs : Tokens) :
  0 < hid -> 1 <= n_seq inputs ->
  token_tensor inputs -> in_vocabulary voc inputs ->
  exists cm,
    convert_to_cudnn_lstm (LanguageModel_init (RT := shape_runtime)
                             voc emb hid)
    = Some cm
    /\ CudnnLanguageModel_forward cm inputs None
       = Returns (Some [n_batch inputs * n_seq inputs; voc]).
Proof.
  intros Hh Ht Hi Hv. eexists. split; [now apply convert_result|].
  unfold CudnnLanguageModel_forward, LSTM_forward.
  cbn [bound_hidden c_num_layers c_lstm c_training c_emb_vectors c_logits
       l_hidden_size l_num_layers LSTM_layers _parameters fst snd].
  set (model := LanguageModel_init (RT := shape_runtime) voc emb hid).
  change (dict_get ("weight_ih" ++ layer_suffix 0)
                   (converted_parameters model))
    with (Some (weight_ih (lstm1 model))).
  change (dict_get ("weight_hh" ++ layer_suffix 0)
                   (converted_parameters model))
    with (Some (weight_hh (lstm1 model))).
  change (dict_get ("bias_ih" ++ layer_suffix 0)
                   (converted_parameters model))
    with (Some (bias_ih (lstm1 model))).
  change (dict_get ("bias_hh" ++ layer_suffix 0)
                   (converted_parameters model))
    with (Some (mkParam (zero_ (data (bias_hh (lstm1 model)))) false)).
  change (dict_get ("weight_ih" ++ layer_suffix 1)
                   (converted_parameters model))
    with (Some (weight_ih (lstm2 model))).
  change (dict_get ("weight_hh" ++ layer_suffix 1)
                   (converted_parameters model))
    with (Some (weight_hh (lstm2 model))).
  change (dict_get ("bias_ih" ++ layer_suffix 1)
                   (converted_parameters model))
    with (Some (bias_ih (lstm2 model))).
  change (dict_get ("bias_hh" ++ layer_suffix 1)
                   (converted_parameters model))
    with (Some (mkParam (zero_ (data (bias_hh (lstm2 model)))) false)).
  unfold model.
  cbn [LanguageModel_init lstm1 lstm2 logits emb_vectors nn_LSTMCell
       nn_Embedding logits_Linear weight_ih weight_hh bias_ih bias_hh
       emb_weight lin_in lin_out lin_weight lin_bias zero_data data
       nn_Parameter fresh zero_ zeros embedding select_layer shape_runtime
       Fixup.obind select_layer_shape Nat.ltb Nat.leb].
  rewrite (embedding_rows _ _ _ Hi Hv).
  rewrite select_steps_rows, LSTM_layer_shape, map_Dropout_shape,
    LSTM_layer_shape, map_repeat.
  cbn [unsqueeze1 cat1 shape_runtime Fixup.obind unsqueeze1_shape].
  rewrite cat1_rows by lia. rewrite Dropout_shape.
  cbn [view_rows shape_runtime Fixup.obind].
  rewrite view_rows_sequence by lia.
  cbn [linear log_softmax shape_runtime Fixup.obind linear_shape].
  rewrite FixupSpec.shape_eqb_refl. unfold replace_last.
  cbn [rev app]. now rewrite Nat.eqb_refl.
Qed.

Lemma converted_model_output_shape_witness :
  exists cm,
    convert_to_cudnn_lstm (LanguageModel_init (RT := shape_runtime) 50 8 16)
    = Some cm
    /\ CudnnLanguageModel_forward cm (mkTokens 2 3 [0; 49; 7; 7; 1; 2]) None
       = Returns (Some [6; 50]).
Proof.
  apply (converted_model_output_shape 50 8 16
           (mkTokens 2 3 [0; 49; 7; 7; 1; 2]));
    [lia | simpl; lia | reflexivity | repeat constructor].
Defined.

Section Composition.
Context {W T : Type} {RT : Runtime W T}.


(** Drivers whose cells agree step by step agree. *)
Lemma forward_with_ext (h1 h2 : nat)
    (cell1 cell2 cell1' cell2' : T -> T * T -> option (T * T))
    emb logits training inputs initial_state :
  (forall x s, cell1 x s = cell1' x s) ->
  (forall x s, cell2 x s = cell2' x s) ->
  forward_with h1 h2 cell1 cell2 emb logits training inputs initial_state
  = forward_with h1 h2 cell1' cell2' emb logits training inputs
                 initial_state.
Proof.
  intros H1 H2. unfold forward_with, hidden_sequence.
  assert (E : forall steps st,
            fold_left (loop_body cell1 cell2 training
                         (embedding (data (emb_weight emb)) inputs))
                      steps st
            = fold_left (loop_body cell1' cell2' training
                           (embedding (data (emb_weight emb)) inputs))
                        steps st).
  { induction steps as [|t steps IH]; intros st; [reflexivity|].
    cbn [fold_left]. rewrite IH. f_equal.
    destruct st as [[[s1 s2] acc]|]; [|reflexivity].
    cbn [loop_body]. rewrite H1.
    destruct (cell1' _ s1) as [[a c]|]; [|reflexivity].
    now rewrite H2. }
  now rewrite E.
Qed.

(** A Mogrifier language model whose two cells run no round computes
    what the plain language model over their LSTM cells computes. *)
Theorem mogrifier_model_without_steps (self : MogrifierLanguageModel)
    (inputs : Tokens) (initial_state : option (T * T)) :
  mogrify_steps (g_lstm1 self) = 0%Z ->
  mogrify_steps (g_lstm2 self) = 0%Z ->
  m_hidden_size (g_lstm1 self) = hidden_size (lstm (g_lstm1 self)) ->
  m_hidden_size (g_lstm2 self) = hidden_size (lstm (g_lstm2 self)) ->
  MogrifierLanguageModel_forward self inputs initial_state
  = LanguageModel_forward
      {| emb_vectors := g_emb_vectors self;
         lstm1 := lstm (g_lstm1 self);
         logits := g_logits self;
         lstm2 := lstm (g_lstm2 self);
         training := g_training self |}
      inputs initial_state.
Proof.
  intros Z1 Z2 S1 S2.
  unfold MogrifierLanguageModel_forward, LanguageModel_forward.
  cbn [emb_vectors lstm1 logits lstm2 training]. rewrite S1, S2.
  apply forward_with_ext; intros x [h c];
    unfold MogrifierLSTMCell_forward, mogrify, plain;
    rewrite ?Z1, ?Z2; reflexivity.
Qed.

End Composition.


Lemma mogrifier_model_without_steps_witness :
  let self := MogrifierLanguageModel_init (RT := shape_runtime) 0 50 8 16 in
  let inputs := mkTokens 2 2 [0; 49; 7; 7] in
  MogrifierLanguageModel_forward self inputs None
  = LanguageModel_forward (LanguageModel_init (RT := shape_runtime) 50 8 16)
      inputs None.
Proof.
  intros self inputs.
  rewrite (mogrifier_model_without_steps self inputs None
             eq_refl eq_refl eq_refl eq_refl).
  reflexivity.
Defined.

(** ** Log-probabilities over the reals *)

Lemma sum_scaled (c : R) (l : list R) :
  fold_right Rplus 0%R (map (fun v => (v * c)%R) l)
  = (fold_right Rplus 0%R l * c)%R.
Proof.
  induction l as [|a l IH]; cbn; [lra | rewrite IH; lra].
Qed.

Lemma sum_exp_pos (a : R) (l : list R) :
  (0 < fold_right Rplus 0%R (map exp (a :: l)))%R.
Proof.
  revert a. induction l as [|b l IH]; intros a; cbn.
  - pose proof (exp_pos a). lra.
  - pose proof (exp_pos a). specialize (IH b). cbn in IH. lra.
Qed.

(** Subtracting the logarithm of the sum of the exponentials normalises a
    row that is not empty. *)
Lemma log_softmax_row (xs : list R) :
  xs <> [] ->
  normalised
    (map (fun v => (v - ln (fold_right Rplus 0%R (map exp xs)))%R) xs).
Proof.
  intros Hne. unfold normalised.
  set (S := fold_right Rplus 0%R (map exp xs)).
  assert (HS : (0 < S)%R)
    by (destruct xs as [|a l]; [congruence | apply sum_exp_pos]).
  rewrite map_map.
  rewrite (map_ext _ (fun v => (exp v * / S)%R)).
  - rewrite <- (map_map exp (fun e => (e * / S)%R)), sum_scaled.
    fold S. now apply Rinv_r, Rgt_not_eq.
  - intros v. unfold Rminus. rewrite exp_plus, exp_Ropp.
    now rewrite exp_ln.
Qed.

Lemma numel_app (a b : list nat) :
  Fixup.numel (a ++ b) = Fixup.numel a * Fixup.numel b.
Proof.
  induction a as [|x a IH]; cbn [app Fixup.numel fold_right].
  - fold (Fixup.numel b). lia.
  - fold (Fixup.numel (a ++ b)) (Fixup.numel a). rewrite IH. lia.
Qed.

Lemma numel_rev (l : list nat) : Fixup.numel (rev l) = Fixup.numel l.
Proof.
  induction l as [|x l IH]; [reflexivity|].
  cbn [rev]. rewrite numel_app, IH.
  cbn [Fixup.numel fold_right]. fold (Fixup.numel l). lia.
Qed.

Lemma flat_map_rows {A B : Type} (f : A -> list B) (l : list A) (k : nat) :
  (forall x, List.length (f x) = k) ->
  List.length (flat_map f l) = List.length l * k.
Proof.
  intros Hf. induction l as [|x l IH]; [reflexivity|].
  cbn [flat_map List.length]. rewrite length_app, Hf, IH. lia.
Qed.

Lemma linear_data_length (i o : nat) (w : list R) (b : option (list R))
    (rows : nat) (x : list R) :
  List.length (Fixup.linear_data i o w b rows x) = rows * o.
Proof.
  unfold Fixup.linear_data.
  rewrite (flat_map_rows _ _ o), length_seq; [reflexivity|].
  intros r. now rewrite length_map, length_seq.
Qed.

Lemma slice_length (start len : nat) (l : list R) :
  start + len <= List.length l -> List.length (slice start len l) = len.
Proof.
  intros H. unfold slice. rewrite length_firstn, length_skipn. lia.
Qed.

(** The linear layer returns one row of [out_features] entries for every
    row of its input. *)
Lemma real_linear_rows (w b t u : Fixup.Tensor) :
  real_linear w b t = Some u ->
  exists o i pre,
    Fixup.tshape w = [o; i]
    /\ Fixup.tshape u = pre ++ [o]
    /\ List.length (Fixup.tdata u) = Fixup.numel pre * o.
Proof.
  unfold real_linear.
  destruct (linear_shape (Fixup.tshape w) (Fixup.tshape b) (Fixup.tshape t))
    as [s|] eqn:El; [|discriminate].
  destruct (Fixup.tshape w) as [|o [|i [|x l]]]; try discriminate.
  intros E. injection E as <-. cbn [Fixup.tshape Fixup.tdata].
  unfold linear_shape in El.
  destruct (Fixup.shape_eqb (Fixup.tshape b) [o]); [|discriminate].
  unfold replace_last in El.
  destruct (rev (Fixup.tshape t)) as [|d r] eqn:Er; [discriminate|].
  destruct (d =? i); [|discriminate].
  injection El as <-.
  exists o, i, (rev r). split; [reflexivity|]. split; [reflexivity|].
  rewrite linear_data_length. f_equal.
  rewrite <- (rev_involutive (Fixup.tshape t)), Er. cbn [rev].
  now rewrite removelast_last.
Qed.

(** The log-softmax of a tensor of rows of [voc] entries is made of as
    many rows of [voc] log-probabilities. *)
Lemma log_softmax_rows (t y : Fixup.Tensor) (voc : nat) (pre : list nat) :
  Fixup.tshape t = pre ++ [voc] ->
  List.length (Fixup.tdata t) = Fixup.numel pre * voc ->
  real_log_softmax t = Some y ->
  exists rows,
    Fixup.tshape y = pre ++ [voc]
    /\ Fixup.tdata y = List.concat rows
    /\ List.length rows = Fixup.numel pre
    /\ Forall (fun row => List.length row = voc
                          /\ (voc <> 0 -> normalised row)) rows.
Proof.
  intros Hs Hl. unfold real_log_softmax.
  rewrite Hs, rev_app_distr. cbn [rev app].
  intros E. injection E as <-. cbn [Fixup.tshape Fixup.tdata].
  rewrite flat_map_concat_map. eexists.
  split; [reflexivity|]. split; [reflexivity|]. split.
  - now rewrite length_map, length_seq, numel_rev.
  - apply Forall_forall. intros row Hrow. apply in_map_iff in Hrow.
    destruct Hrow as (i & <- & Hi). apply in_seq in Hi.
    rewrite numel_rev in Hi.
    assert (Hlen : List.length (slice (i * voc) voc (Fixup.tdata t)) = voc)
      by (apply slice_length; nia).
    split.
    + now rewrite length_map.
    + intros Hv. apply log_softmax_row.
      intros Hnil. rewrite Hnil in Hlen. cbn in Hlen. lia.
Qed.

(** Whatever the parameters and the inputs, what the three forward passes
    return over the reals is a tensor of log-probabilities along the
    vocabulary dimension: its last dimension is the number [voc] of rows
    of the logits weight, it is made of one row of [voc] entries for
    every index of its other dimensions, and the exponentials of every
    row sum to one. *)
Theorem outputs_are_log_probabilities draw drop layer :
  let RT := real_runtime draw drop layer in
  let log_probabilities (logits : LinearM (W := Fixup.Tensor))
        (y : Fixup.Tensor) :=
    exists voc hid pre rows,
      Fixup.tshape (data (lin_weight logits)) = [voc; hid]
      /\ Fixup.tshape y = pre ++ [voc]
      /\ Fixup.tdata y = List.concat rows
      /\ List.length rows = Fixup.numel pre
      /\ Forall (fun row => List.length row = voc
                            /\ (voc <> 0 -> normalised row)) rows in
  (forall (model : LanguageModel) inputs state y,
     LanguageModel_forward (RT := RT) model inputs state = Some (Some y) ->
     log_probabilities (logits model) y)
  /\ (forall (model : MogrifierLanguageModel) inputs state y,
        MogrifierLanguageModel_forward (RT := RT) model inputs state
        = Some (Some y) ->
        log_probabilities (g_logits model) y)
  /\ (forall (model : CudnnLanguageModel) inputs state y,
        CudnnLanguageModel_forward (RT := RT) model inputs state
        = Returns (Some y) ->
        log_probabilities (c_logits model) y).
Proof.
  intros RT log_probabilities.
  assert (Hhead : forall (logits : LinearM) (t : option Fixup.Tensor) y,
            @log_softmax _ _ RT
              (@linear _ _ RT (data (lin_weight logits))
                       (data (lin_bias logits)) t)
            = Some y ->
            log_probabilities logits y).
  { intros logits [t|] y E; [|discriminate].
    cbn [linear log_softmax RT real_runtime Fixup.obind] in E.
    destruct (real_linear _ _ t) as [u|] eqn:Eu; [|discriminate].
    cbn [Fixup.obind] in E.
    destruct (real_linear_rows _ _ _ _ Eu) as (o & i & pre & Hw & Hs & Hl).
    destruct (log_softmax_rows u y o pre Hs Hl E) as (rows & H1 & H2 & H3 & H4).
    exists o, i, pre, rows. auto. }
  split; [|split].
  - intros model inputs state y.
    unfold LanguageModel_forward, forward_with.
    destruct (hidden_sequence _ _ _ _ _ _); [|discriminate].
    intros E. injection E as E. now apply Hhead in E.
  - intros model inputs state y.
    unfold MogrifierLanguageModel_forward, forward_with.
    destruct (hidden_sequence _ _ _ _ _ _); [|discriminate].
    intros E. injection E as E. now apply Hhead in E.
  - intros model inputs state y.
    unfold CudnnLanguageModel_forward.
    destruct (bound_hidden _ _ _); [|discriminate].
    destruct (LSTM_forward _ _ _ _ _); [|discriminate].
    intros E. injection E as E. now apply Hhead in E.
Qed.

Lemma outputs_are_log_probabilities_witness :
  exists y rows,
    LanguageModel_forward (RT := plain_real_runtime) small_model one_token
                          None
    = Some (Some y)
    /\ Fixup.tshape y = [1; 1; 2]
    /\ Fixup.tdata y = List.concat rows
    /\ List.length rows = 1
    /\ Forall (fun row => List.length row = 2 /\ normalised row) rows.
Proof.
  assert (E : exists y,
            LanguageModel_forward (RT := plain_real_runtime) small_model
                                  one_token None
            = Some (Some y)
            /\ Fixup.tshape y = [1; 1; 2]).
  { eexists.
    cbv -[Rplus Rmult Rminus Rdiv Rinv Ropp exp ln tanh IZR logistic].
    split; reflexivity. }
  destruct E as (y & E & Hy).
  destruct (proj1 (outputs_are_log_probabilities
                     Fixup.zeros (fun t => t) (fun _ _ t => t))
                  small_model one_token None y E)
    as (voc & hid & pre & rows & Hw & Hs & Hd & Hn & Hrows).
  injection Hw as <- <-.
  rewrite Hy in Hs.
  assert (Hpre : pre = [1; 1]).
  { change [1; 1; 2] with ([1; 1] ++ [2]) in Hs.
    now apply app_inj_tail in Hs as [<- _]. }
  subst pre.
  exists y, rows. repeat split; auto.
  eapply Forall_impl; [|exact Hrows].
  intros row [Hl Hr]. split; [exact Hl | apply Hr; discriminate].
Defined.

End LMMore.
